(** * The session manager of the hook0 frontend ([frontend/src/iam.ts])

    A shallow embedding of the client-side authentication session manager:
    the module-level state ([state], [refreshTimerId]), the persisted copy in
    [localStorage], the refresh scheduler, the exported operations and the
    navigation guard.  Line numbers are those of [frontend/src/iam.ts].

    The program is single-threaded and event driven.  An [async] function
    runs synchronously up to an [await] on a network call and is resumed
    when the response arrives, so the embedding is a transition system over
    a [World]: each entry point of the module and each event of the
    environment (an HTTP response, a timer, time passing) is one total
    function [World -> World]; an event that cannot happen in a world (the
    response to a call that is not in flight, a timer that is not pending or
    not due) leaves the world as it is.  The part of an async function that
    follows an [await] is a definition of its own ([resume]), and what
    consumes the promise of an async call is a first-order [Handler].

    Conventions:
    - the clock does not move inside one synchronous run, so the several
      [new Date()] of one run of [scheduleAutoRefresh] read the same time;
      time moves between events ([Elapse]);
    - a promise that is already settled is consumed at once: the order of
      microtasks inside one event is not modelled;
    - [router.push] is an effect of the trace and fulfils;
    - the effects on the collaborators (requests, timers, console, router,
      settled promises) are recorded in [trace]. *)

From stdpp Require Import gmap strings list.

Local Open Scope Z_scope.

(** ** Dates

    A [Date] is represented by its time value, the milliseconds since the
    epoch; a [DateString] is the ISO-8601 text of a time value, as the API
    sends it and as [JSON.stringify] writes a [Date].  Dates are valid
    dates: the embedding does not cover [Invalid Date]. *)

Definition Date := Z.

Inductive DateString := Iso (t : Z).

(** [new Date(s)] for an ISO-8601 string [s]. *)
Definition newDate (s : DateString) : Date :=
  match s with Iso t => t end.

(** [Date.prototype.toJSON], used by [JSON.stringify]. *)
Definition toJSON (d : Date) : DateString := Iso d.

(** date-fns [subMinutes(date, amount)]. *)
Definition subMinutes (d : Date) (amount : Z) : Date := d - amount * 60000.

(** date-fns [differenceInMilliseconds(dateLeft, dateRight)]. *)
Definition differenceInMilliseconds (dateLeft dateRight : Date) : Z :=
  dateLeft - dateRight.

(** ** The session ([interface State], lines 12-20) *)

Record State := {
  accessToken : string;
  accessTokenExpiration : Date;
  refreshToken : string;
  refreshTokenExpiration : Date;
  email : string;
  firstName : string;
  lastName : string
}.

(** [definitions['LoginResponse']], the body of a successful login or
    refresh response. *)
Module Api.
Record LoginResponse := {
  access_token : string;
  access_token_expiration : DateString;
  refresh_token : string;
  refresh_token_expiration : DateString;
  email : string;
  first_name : string;
  last_name : string
}.
End Api.

(** The object built at lines 110-118 and again at lines 142-150. *)
Definition stateOfResponse (data : Api.LoginResponse) : State :=
  {| accessToken := Api.access_token data;
     accessTokenExpiration := newDate (Api.access_token_expiration data);
     refreshToken := Api.refresh_token data;
     refreshTokenExpiration := newDate (Api.refresh_token_expiration data);
     email := Api.email data;
     firstName := Api.first_name data;
     lastName := Api.last_name data |}.

(** ** Persisted storage

    [localStorage] maps keys to texts.  A text is represented by what
    [JSON.parse] makes of it: text that is not JSON, the text [null], or the
    text of an object with the fields of a session (the type of [parsed],
    lines 31-39), its two dates being ISO-8601 strings: what
    [writeStateToStorage] writes.  Other JSON texts (a number, an object
    that lacks a field or whose date does not parse) are outside the
    embedding: no property below speaks of them. *)

Module Parsed.
Record t := {
  accessToken : string;
  accessTokenExpiration : DateString;
  refreshToken : string;
  refreshTokenExpiration : DateString;
  email : string;
  firstName : string;
  lastName : string
}.
End Parsed.

Inductive StoredText :=
| NotJson (raw : string)
| JsonNull
| JsonObject (o : Parsed.t).

Inductive Error := SyntaxError.

(** The result of a synchronous call that may throw. *)
Inductive Completion (A : Type) :=
| Return (a : A)
| Throw (e : Error).
Arguments Return {A} a.
Arguments Throw {A} e.

(** [JSON.parse(data)]; [None] is JavaScript's [null]. *)
Definition JSON_parse (data : StoredText) : Completion (option Parsed.t) :=
  match data with
  | NotJson _ => Throw SyntaxError
  | JsonNull => Return None
  | JsonObject o => Return (Some o)
  end.

(** [JSON.stringify(state)] for a session. *)
Definition JSON_stringify (s : State) : StoredText :=
  JsonObject
    {| Parsed.accessToken := accessToken s;
       Parsed.accessTokenExpiration := toJSON (accessTokenExpiration s);
       Parsed.refreshToken := refreshToken s;
       Parsed.refreshTokenExpiration := toJSON (refreshTokenExpiration s);
       Parsed.email := email s;
       Parsed.firstName := firstName s;
       Parsed.lastName := lastName s |}.

Definition localStorageKey : string := "auth".

(** ** Effects on the collaborators *)

Inductive Client := unauthenticated | withRefreshToken | authenticated.

Inductive RouteName := Login | Home.

Inductive Operation :=
  OpInstall | OpLogin | OpRefresh | OpLogout | OpClearTokens | OpRegister.

Inductive Outcome := Resolved | Rejected.

Inductive ConsoleMessage :=
| CouldNotRefresh          (* line 82 *)
| WillRefreshIn (ms : Z)   (* line 92 *)
| RefreshingAccessToken    (* line 95 *)
| CannotEnableAutoRefresh  (* line 101 *)
| LogoutFailed             (* line 163 *)
| UncaughtRejection.       (* .catch(console.error), lines 96 and 214 *)

Inductive Effect :=
| HttpPost (id : nat) (c : Client) (url : string) (body : list (string * string))
| SetTimeout (id : nat) (delay : Z)
| ClearTimeout (id : nat)
| Console (m : ConsoleMessage)
| RouterPush (name : RouteName)
| RouterBeforeEach
| Settled (op : Operation) (o : Outcome)
| Threw (op : Operation) (e : Error).

(** ** Suspended computations

    [Handler] is what consumes the promise of an async call when it
    settles. *)

Inductive Handler :=
| caller (op : Operation)
    (* the promise was returned to the application *)
| catchConsoleError
    (* [.catch(console.error)], lines 96 and 214 *)
| catchLogout (k : Handler)
    (* [await refresh().catch(...)], lines 81-86, inside a run of
       [scheduleAutoRefresh] whose own promise goes to [k] *)
| awaited (by_ : Operation) (k : Handler).
    (* [await] as the last statement of [login] (line 121), [refresh]
       (line 153) or [logout] (line 166), whose own promise goes to [k] *)

(** The [await] on a network call at which an async function is suspended. *)
Inductive Pending :=
| LoginPost (k : Handler)     (* line 106 *)
| RefreshPost (k : Handler)   (* line 141 *)
| LogoutPost (k : Handler)    (* line 161 *)
| RegisterPost (k : Handler). (* line 131 *)

(** The value a network call is rejected with.  The module hands it on or
    gives it to [console.error] as it is, except at line 163, where it is
    given to [JSON.stringify], which throws a [TypeError] on a value it
    cannot serialize (one with a cycle, one holding a BigInt).  That is all
    the module can tell of the value, and all that is represented. *)
Inductive Rejection := Serializable | Unserializable.

(** The settlement of a network call.  Only [login] and [refresh] read the
    body of a response. *)
Inductive Reply :=
| Ok (data : Api.LoginResponse)
| Err (e : Rejection).

(** A pending [window.setTimeout]; the callback is always the one of lines
    94-97. *)
Record Timeout := { armedAt : Z; delay : Z }.

(** The conversion of an integer to the [long] that [window.setTimeout]
    takes as its delay: modulo 2^32, into [-2^31, 2^31). *)
Definition toLong (z : Z) : Z :=
  (z + 2147483648) mod 4294967296 - 2147483648.

(** When a timeout runs: after its delay as a [long], at once when that is
    negative. *)
Definition due (t : Timeout) : Z := armedAt t + Z.max 0 (toLong (delay t)).

(** ** The world *)

Record World := {
  state : option State;                     (* [state.value], line 24 *)
  refreshTimerId : option nat;              (* line 25 *)
  localStorage : gmap string StoredText;
  clock : Z;                                (* what [new Date()] reads *)
  timers : gmap nat Timeout;                (* timeouts not yet fired or cleared *)
  nextTimer : nat;
  inflight : gmap nat Pending;              (* network calls not yet settled *)
  nextRequest : nat;
  trace : list Effect                       (* effects so far, oldest first *)
}.

Definition set_state (v : option State) (w : World) : World :=
  {| state := v; refreshTimerId := refreshTimerId w;
     localStorage := localStorage w; clock := clock w; timers := timers w;
     nextTimer := nextTimer w; inflight := inflight w;
     nextRequest := nextRequest w; trace := trace w |}.

Definition set_localStorage (m : gmap string StoredText) (w : World) : World :=
  {| state := state w; refreshTimerId := refreshTimerId w;
     localStorage := m; clock := clock w; timers := timers w;
     nextTimer := nextTimer w; inflight := inflight w;
     nextRequest := nextRequest w; trace := trace w |}.

Definition set_clock (t : Z) (w : World) : World :=
  {| state := state w; refreshTimerId := refreshTimerId w;
     localStorage := localStorage w; clock := t; timers := timers w;
     nextTimer := nextTimer w; inflight := inflight w;
     nextRequest := nextRequest w; trace := trace w |}.

Definition set_timers (m : gmap nat Timeout) (w : World) : World :=
  {| state := state w; refreshTimerId := refreshTimerId w;
     localStorage := localStorage w; clock := clock w; timers := m;
     nextTimer := nextTimer w; inflight := inflight w;
     nextRequest := nextRequest w; trace := trace w |}.

Definition set_inflight (m : gmap nat Pending) (w : World) : World :=
  {| state := state w; refreshTimerId := refreshTimerId w;
     localStorage := localStorage w; clock := clock w; timers := timers w;
     nextTimer := nextTimer w; inflight := m;
     nextRequest := nextRequest w; trace := trace w |}.

Definition emit (e : Effect) (w : World) : World :=
  {| state := state w; refreshTimerId := refreshTimerId w;
     localStorage := localStorage w; clock := clock w; timers := timers w;
     nextTimer := nextTimer w; inflight := inflight w;
     nextRequest := nextRequest w; trace := trace w ++ [e] |}.

(** ** Collaborators *)

(** [window.setTimeout(callback, delay)] assigned to [refreshTimerId]
    (line 94). *)
Definition setTimeout (ms : Z) (w : World) : World :=
  let id := nextTimer w in
  {| state := state w; refreshTimerId := Some id;
     localStorage := localStorage w; clock := clock w;
     timers := <[id := {| armedAt := clock w; delay := ms |}]> (timers w);
     nextTimer := S id; inflight := inflight w;
     nextRequest := nextRequest w;
     trace := trace w ++ [SetTimeout id ms] |}.

(** [clearTimeout(id)]; clearing a timeout that has fired changes nothing. *)
Definition clearTimeout (id : nat) (w : World) : World :=
  emit (ClearTimeout id) (set_timers (delete id (timers w)) w).

(** A [post] of the HTTP client under an [await]: the request leaves and the
    async function is suspended at [p]. *)
Definition httpPost (c : Client) (url : string) (body : list (string * string))
    (p : Pending) (w : World) : World :=
  let id := nextRequest w in
  {| state := state w; refreshTimerId := refreshTimerId w;
     localStorage := localStorage w; clock := clock w; timers := timers w;
     nextTimer := nextTimer w; inflight := <[id := p]> (inflight w);
     nextRequest := S id;
     trace := trace w ++ [HttpPost id c url body] |}.

(** ** Storage access (lines 27-68) *)

(** The object returned at lines 48-52: [parsed] with its two dates made
    [Date]s. *)
Definition stateOfParsed (parsed : Parsed.t) : State :=
  {| accessToken := Parsed.accessToken parsed;
     accessTokenExpiration := newDate (Parsed.accessTokenExpiration parsed);
     refreshToken := Parsed.refreshToken parsed;
     refreshTokenExpiration := newDate (Parsed.refreshTokenExpiration parsed);
     email := Parsed.email parsed;
     firstName := Parsed.firstName parsed;
     lastName := Parsed.lastName parsed |}.

(** [readStateFromStorage], lines 27-60. *)
Definition readStateFromStorage (w : World) : Completion (option State) :=
  match localStorage w !! localStorageKey with
  | Some data =>
      match JSON_parse data with
      | Throw e => Throw e
      | Return (Some parsed) =>
          let refreshTokenExpirationDate :=
            newDate (Parsed.refreshTokenExpiration parsed) in
          if refreshTokenExpirationDate <=? clock w then Return None
          else Return (Some (stateOfParsed parsed))
      | Return None => Return None
      end
  | None => Return None
  end.

(** [writeStateToStorage], lines 62-64. *)
Definition writeStateToStorage (s : State) (w : World) : World :=
  set_localStorage (<[localStorageKey := JSON_stringify s]> (localStorage w)) w.

(** [removeStateFromStorage], lines 66-68. *)
Definition removeStateFromStorage (w : World) : World :=
  set_localStorage (delete localStorageKey (localStorage w)) w.

(** ** Settling a promise

    [settle o k w]: an async call whose promise is consumed by [k] finishes
    with outcome [o]. *)
Fixpoint settle (o : Outcome) (k : Handler) (w : World) : World :=
  match k with
  | caller op => emit (Settled op o) w
  | catchConsoleError =>
      match o with
      | Rejected => emit (Console UncaughtRejection) w
      | Resolved => w
      end
  | catchLogout k' =>
      match o with
      | Rejected =>
          (* lines 82-85 *)
          let w1 := emit (Console CouldNotRefresh) w in
          let w2 := set_state None w1 in
          let w3 := removeStateFromStorage w2 in
          settle Resolved k' w3
      | Resolved => settle Resolved k' w
      end
  | awaited _ k' => settle o k' w
  end.

(** ** The operations *)

(** The guarded [clearTimeout(refreshTimerId)] that opens
    [scheduleAutoRefresh] (lines 71-73) and [clearTokens] (lines 179-181);
    the variable keeps the id. *)
Definition cancelRefreshTimer (w : World) : World :=
  match refreshTimerId w with
  | Some id => clearTimeout id w
  | None => w
  end.

(** [refresh], lines 139-141: up to the [await] of line 141. *)
Definition refresh (k : Handler) (w : World) : World :=
  match state w with
  | Some _ => httpPost withRefreshToken "/auth/refresh" [] (RefreshPost k) w
  | None => settle Resolved k w
  end.

(** [scheduleAutoRefresh], lines 70-103. *)
Definition scheduleAutoRefresh (k : Handler) (w : World) : World :=
  let w := cancelRefreshTimer w in
  match state w with
  | Some s =>
      if refreshTokenExpiration s <=? clock w then
        settle Resolved k (removeStateFromStorage (set_state None w))
      else if accessTokenExpiration s <=? clock w then
        refresh (catchLogout k) w
      else
        let refreshInMs :=
          differenceInMilliseconds (subMinutes (accessTokenExpiration s) 1) (clock w) in
        let w := emit (Console (WillRefreshIn refreshInMs)) w in
        settle Resolved k (setTimeout refreshInMs w)
  | None => settle Resolved k (emit (Console CannotEnableAutoRefresh) w)
  end.

(** The callback of the timeout, lines 94-97. *)
Definition refreshTimerCallback (w : World) : World :=
  refresh catchConsoleError (emit (Console RefreshingAccessToken) w).

(** [login], lines 105-109: up to the [await] of line 106. *)
Definition login (email password : string) (k : Handler) (w : World) : World :=
  httpPost unauthenticated "/auth/login"
    [("email", email); ("password", password)] (LoginPost k) w.

(** [clearTokens], lines 178-185. *)
Definition clearTokens (k : Handler) (w : World) : World :=
  let w := cancelRefreshTimer w in
  let w := set_state None w in
  let w := removeStateFromStorage w in
  let w := emit (RouterPush Login) w in
  settle Resolved k w.

(** [logout], lines 158-161: up to the [await] of line 161. *)
Definition logout (k : Handler) (w : World) : World :=
  match state w with
  | Some _ => httpPost authenticated "/auth/logout" [] (LogoutPost k) w
  | None => settle Resolved k w
  end.

(** [register], lines 125-137: the function returns the promise of its
    request, so its own promise settles as the request does. *)
Definition register (email firstName lastName password : string)
    (k : Handler) (w : World) : World :=
  httpPost unauthenticated "/register"
    [("email", email); ("first_name", firstName);
     ("last_name", lastName); ("password", password)] (RegisterPost k) w.

(** The rest of [login] (lines 110-122), of [refresh] (lines 142-154), of
    [logout] (lines 162-166) and of [register] once the awaited network call
    settles.  In [logout] the [catch] of line 162 evaluates
    [JSON.stringify(e)] for its message (line 163): when that throws, the
    exception leaves [logout], whose promise is rejected, and line 166 is
    not reached. *)
Definition resume (p : Pending) (r : Reply) (w : World) : World :=
  match p, r with
  | LoginPost k, Ok data =>
      let s := stateOfResponse data in
      let w := set_state (Some s) w in
      scheduleAutoRefresh (awaited OpLogin k) (writeStateToStorage s w)
  | LoginPost k, Err _ => settle Rejected k w
  | RefreshPost k, Ok data =>
      let s := stateOfResponse data in
      let w := set_state (Some s) w in
      scheduleAutoRefresh (awaited OpRefresh k) (writeStateToStorage s w)
  | RefreshPost k, Err _ => settle Rejected k w
  | LogoutPost k, Ok _ => clearTokens (awaited OpLogout k) w
  | LogoutPost k, Err Serializable =>
      clearTokens (awaited OpLogout k) (emit (Console LogoutFailed) w)
  | LogoutPost k, Err Unserializable => settle Rejected k w
  | RegisterPost k, Ok _ => settle Resolved k w
  | RegisterPost k, Err _ => settle Rejected k w
  end.

(** ** The navigation guard (lines 218-232) *)

Record RouteMeta := {
  requiresAuth : option bool;
  redirectIfLoggedIn : option bool
}.

Inductive GuardResult :=
| RedirectTo (name : RouteName)   (* [return { name: ... }] *)
| Proceed.                        (* [return true] *)

(** [a ?? b]. *)
Definition nullish {A : Type} (a : option A) (b : A) : A :=
  match a with Some v => v | None => b end.

(** The function passed to [router.beforeEach]; [meta] is [to.meta]. *)
Definition beforeEachGuard (meta : option RouteMeta) (w : World) : GuardResult :=
  if nullish (meta ≫= requiresAuth) true && bool_decide (state w = None) then
    RedirectTo Login
  else if negb (nullish (meta ≫= requiresAuth) true)
          && nullish (meta ≫= redirectIfLoggedIn) true
          && bool_decide (state w ≠ None) then
    RedirectTo Home
  else Proceed.

(** [AuthPlugin.install], lines 210-233. *)
Definition install (w : World) : World :=
  match readStateFromStorage w with
  | Throw e => emit (Threw OpInstall e) w
  | Return (Some storedState) =>
      let w := set_state (Some storedState) w in
      let w := scheduleAutoRefresh catchConsoleError w in
      emit RouterBeforeEach w
  | Return None =>
      let w := removeStateFromStorage w in
      emit RouterBeforeEach w
  end.

(** ** Events *)

Inductive Event :=
| CallInstall                              (* [app.use(AuthPlugin)] *)
| CallLogin (email password : string)
| CallRefresh
| CallLogout
| CallClearTokens
| HttpSettles (id : nat) (r : Reply)       (* the network call [id] settles *)
| TimerFires (id : nat)                    (* the timeout [id] is due and runs *)
| Elapse (ms : N)                          (* time passes *)
| CallRegister (email firstName lastName password : string).

Definition step (e : Event) (w : World) : World :=
  match e with
  | CallInstall => install w
  | CallLogin email password => login email password (caller OpLogin) w
  | CallRefresh => refresh (caller OpRefresh) w
  | CallLogout => logout (caller OpLogout) w
  | CallClearTokens => clearTokens (caller OpClearTokens) w
  | HttpSettles id r =>
      match inflight w !! id with
      | Some p => resume p r (set_inflight (delete id (inflight w)) w)
      | None => w
      end
  | TimerFires id =>
      match timers w !! id with
      | Some t =>
          if due t <=? clock w then
            refreshTimerCallback (set_timers (delete id (timers w)) w)
          else w
      | None => w
      end
  | Elapse ms => set_clock (clock w + Z.of_N ms) w
  | CallRegister email firstName lastName password =>
      register email firstName lastName password (caller OpRegister) w
  end.

(** The world after a sequence of events, oldest first. *)
Definition run (es : list Event) (w : World) : World :=
  foldl (fun w e => step e w) w es.

(** A fresh page: nothing in memory, [store] in [localStorage], the clock at
    [t0]. *)
Definition boot (store : gmap string StoredText) (t0 : Z) : World :=
  {| state := None; refreshTimerId := None; localStorage := store;
     clock := t0; timers := ∅; nextTimer := 0; inflight := ∅;
     nextRequest := 0; trace := [] |}.

(** ** Vocabulary of the properties *)

(** The effects a settlement adds to the trace: console lines and the
    settlement of the application's promise, nothing else. *)
Definition quiet (e : Effect) : bool :=
  match e with
  | Console _ | Settled _ _ => true
  | _ => false
  end.

(** [w'] is [w] but for the effects [es] added to the trace. *)
Definition only_adds (es : list Effect) (w w' : World) : Prop :=
  state w' = state w
  ∧ refreshTimerId w' = refreshTimerId w
  ∧ localStorage w' = localStorage w
  ∧ clock w' = clock w
  ∧ timers w' = timers w
  ∧ nextTimer w' = nextTimer w
  ∧ inflight w' = inflight w
  ∧ nextRequest w' = nextRequest w
  ∧ trace w' = trace w ++ es.

(** A flag of the route's metadata, [true] when the metadata or the flag is
    absent. *)
Definition metaFlag (flag : RouteMeta → option bool) (meta : option RouteMeta) : bool :=
  match meta with
  | Some m => match flag m with Some b => b | None => true end
  | None => true
  end.

(** *** The pending timeout is the one [refreshTimerId] names *)

Definition timer_tracked (w : World) : Prop :=
  ∀ id t, timers w !! id = Some t → refreshTimerId w = Some id.

Definition timer_id_used (w : World) : Prop :=
  ∀ id, refreshTimerId w = Some id → (id < nextTimer w)%nat.

Definition timers_ok (w : World) : Prop := timer_tracked w ∧ timer_id_used w.

(** *** Write-through: the stored copy follows the session *)

Definition in_sync (w : World) : Prop :=
  match state w with
  | Some s => localStorage w !! localStorageKey = Some (JSON_stringify s)
  | None => localStorage w !! localStorageKey = None
  end.

(** The settlements of its request after which [logout] goes on to
    [clearTokens] (line 166): the request is fulfilled, or rejected with a
    value the message of line 163 can be built from. *)
Definition reaches_clearTokens (r : Reply) : Prop :=
  r ≠ Err Unserializable.

(** [mutation w e]: in the world [w] the event [e] completes one of the
    operations that change the session: a login or refresh that succeeds, a
    logout that goes on to [clearTokens], a refresh awaited by the
    scheduler that fails, and the rehydration, on a fresh page, of a storage
    whose entry is absent, is the text [null] or is a serialized session. *)
Inductive mutation (w : World) : Event → Prop :=
| login_success id k data :
    inflight w !! id = Some (LoginPost k) →
    mutation w (HttpSettles id (Ok data))
| refresh_success id k data :
    inflight w !! id = Some (RefreshPost k) →
    mutation w (HttpSettles id (Ok data))
| logout_done id k r :
    inflight w !! id = Some (LogoutPost k) →
    reaches_clearTokens r →
    mutation w (HttpSettles id r)
| forced_logout id k e :
    inflight w !! id = Some (RefreshPost (catchLogout k)) →
    mutation w (HttpSettles id (Err e))
| rehydration :
    state w = None →
    (localStorage w !! localStorageKey = None
     ∨ localStorage w !! localStorageKey = Some JsonNull
     ∨ ∃ o, localStorage w !! localStorageKey = Some (JsonObject o)) →
    mutation w CallInstall.

(** *** Transitions into [LoggedIn] *)

(** [logs_in w e s]: in the world [w] the event [e] is a transition into
    [LoggedIn] with the session [s]: a login or a refresh whose network call
    succeeds, or the rehydration of a stored session whose refresh token is
    good. *)
Inductive logs_in (w : World) : Event → State → Prop :=
| login_succeeds id k data :
    inflight w !! id = Some (LoginPost k) →
    logs_in w (HttpSettles id (Ok data)) (stateOfResponse data)
| refresh_succeeds id k data :
    inflight w !! id = Some (RefreshPost k) →
    logs_in w (HttpSettles id (Ok data)) (stateOfResponse data)
| rehydrates o :
    localStorage w !! localStorageKey = Some (JsonObject o) →
    clock w < refreshTokenExpiration (stateOfParsed o) →
    logs_in w CallInstall (stateOfParsed o).

(** ** Worked runs *)

(** A login response with the given expirations. *)
Definition response (accessExpiration refreshExpiration : Z) : Api.LoginResponse :=
  {| Api.access_token := "at";
     Api.access_token_expiration := Iso accessExpiration;
     Api.refresh_token := "rt";
     Api.refresh_token_expiration := Iso refreshExpiration;
     Api.email := "ada@example.org";
     Api.first_name := "Ada";
     Api.last_name := "Lovelace" |}.

(** A fresh page at time 0 with nothing stored. *)
Definition fresh_page : World := boot ∅ 0.

(** The login request is in flight. *)
Definition login_sent : World :=
  run [CallLogin "ada@example.org" "pw"] fresh_page.

(** Logged in at time 0: the access token expires at 5 min, the refresh
    token at 15 min; the timeout 0 is armed for 4 min. *)
Definition logged_in : World :=
  step (HttpSettles 0 (Ok (response 300000 900000))) login_sent.

(** A fresh page at time 5 whose stored session has an access token expired
    at 0 and a refresh token good until 10. *)
Definition stale_page : World :=
  boot {[ localStorageKey := JSON_stringify (stateOfResponse (response 0 10)) ]} 5.

(** The stored object of [stale_page]. *)
Definition stale_object : Parsed.t :=
  {| Parsed.accessToken := "at";
     Parsed.accessTokenExpiration := Iso 0;
     Parsed.refreshToken := "rt";
     Parsed.refreshTokenExpiration := Iso 10;
     Parsed.email := "ada@example.org";
     Parsed.firstName := "Ada";
     Parsed.lastName := "Lovelace" |}.

(** A fresh page whose "auth" entry is not JSON. *)
Definition corrupt_page : World :=
  boot {[ localStorageKey := NotJson "{oops" ]} 0.

(** A fresh page whose "auth" entry is the text [null]. *)
Definition null_page : World := boot {[ localStorageKey := JsonNull ]} 0.

(** ** The rest of the module's interface *)

(** The value of [getAccessToken()], lines 170-172. *)
Definition getAccessToken (w : World) : option string :=
  match state w with
  | Some s => Some (accessToken s)
  | None => None
  end.

(** The value of [getRefreshToken()], lines 174-176. *)
Definition getRefreshToken (w : World) : option string :=
  match state w with
  | Some s => Some (refreshToken s)
  | None => None
  end.

(** [interface UserInfo], lines 187-192. *)
Module UserInfo.
Record t := {
  email : string;
  firstName : string;
  lastName : string;
  name : string
}.
End UserInfo.

(** The value of [getUserInfo()], lines 194-207. *)
Definition getUserInfo (w : World) : option UserInfo.t :=
  match state w with
  | Some s =>
      Some {| UserInfo.email := email s;
              UserInfo.firstName := firstName s;
              UserInfo.lastName := lastName s;
              UserInfo.name :=
                String.append (firstName s) (String.append " " (lastName s)) |}
  | None => None
  end.

(** ** Vocabulary of the further properties *)

(** The handlers a refresh request can have, and the handlers a run of the
    scheduler can have: [refresh()] is called by the application, by the
    timeout (lines 94-97) and by the scheduler (line 81); the scheduler is
    called by [install] (line 214), [login] (line 121) and [refresh]
    (line 153). *)
Inductive refresh_handler : Handler → Prop :=
| refresh_by_application : refresh_handler (caller OpRefresh)
| refresh_by_timeout : refresh_handler catchConsoleError
| refresh_by_scheduler k :
    scheduler_handler k → refresh_handler (catchLogout k)
with scheduler_handler : Handler → Prop :=
| scheduler_by_install : scheduler_handler catchConsoleError
| scheduler_by_login : scheduler_handler (awaited OpLogin (caller OpLogin))
| scheduler_by_refresh k :
    refresh_handler k → scheduler_handler (awaited OpRefresh k).

Definition pending_ok (p : Pending) : Prop :=
  match p with
  | LoginPost k => k = caller OpLogin
  | RefreshPost k => refresh_handler k
  | LogoutPost k => k = caller OpLogout
  | RegisterPost k => k = caller OpRegister
  end.

(** Every network call in flight was numbered before [nextRequest] and is
    awaited as the module's code awaits it. *)
Definition inflight_ok (w : World) : Prop :=
  ∀ id p, inflight w !! id = Some p → (id < nextRequest w)%nat ∧ pending_ok p.

(** An effect other than the rejection of a promise of [clearTokens], and
    other than the rejection of a promise of [logout] unless [unlogged]
    holds. *)
Definition benign (unlogged : Prop) (e : Effect) : Prop :=
  ∀ op, e = Settled op Rejected →
    op = OpLogin ∨ op = OpRefresh ∨ op = OpRegister
    ∨ (op = OpLogout ∧ unlogged).

(** The two storages agree on every key but "auth". *)
Definition same_elsewhere (m m' : gmap string StoredText) : Prop :=
  ∀ key, key ≠ localStorageKey → m' !! key = m !! key.

(** Logged in since time 0, at 4 min: the timeout 0 is due. *)
Definition refresh_due : World := step (Elapse 240000) logged_in.

(** On [logged_in]: the application calls [refresh()] and then [logout()],
    and the logout request is fulfilled first. *)
Definition logged_out_mid_refresh : World :=
  run [CallRefresh; CallLogout; HttpSettles 2 (Ok (response 0 0))] logged_in.

(** ** Properties
    *** What settling a promise leaves alone *)

Lemma settle_timers o k w : timers (settle o k w) = timers w.
Proof. revert o w; induction k; intros [] w; simpl; rewrite ?IHk; done. Qed.

Lemma settle_refreshTimerId o k w :
  refreshTimerId (settle o k w) = refreshTimerId w.
Proof. revert o w; induction k; intros [] w; simpl; rewrite ?IHk; done. Qed.

Lemma settle_nextTimer o k w : nextTimer (settle o k w) = nextTimer w.
Proof. revert o w; induction k; intros [] w; simpl; rewrite ?IHk; done. Qed.

Lemma settle_inflight o k w : inflight (settle o k w) = inflight w.
Proof. revert o w; induction k; intros [] w; simpl; rewrite ?IHk; done. Qed.

Lemma settle_nextRequest o k w : nextRequest (settle o k w) = nextRequest w.
Proof. revert o w; induction k; intros [] w; simpl; rewrite ?IHk; done. Qed.

Lemma settle_clock o k w : clock (settle o k w) = clock w.
Proof. revert o w; induction k; intros [] w; simpl; rewrite ?IHk; done. Qed.

(** A fulfilled promise touches neither the session nor its stored copy. *)
Lemma settle_Resolved_state k w : state (settle Resolved k w) = state w.
Proof. revert w; induction k; intros w; simpl; rewrite ?IHk; done. Qed.

Lemma settle_Resolved_localStorage k w :
  localStorage (settle Resolved k w) = localStorage w.
Proof. revert w; induction k; intros w; simpl; rewrite ?IHk; done. Qed.

Lemma settle_trace o k w :
  ∃ es, trace (settle o k w) = trace w ++ es ∧ forallb quiet es = true.
Proof.
  revert o w; induction k; intros o w; simpl.
  - by exists [Settled op o].
  - destruct o; [by exists []; rewrite app_nil_r | by exists [Console UncaughtRejection]].
  - destruct o.
    + apply IHk.
    + destruct (IHk Resolved
        (removeStateFromStorage (set_state None (emit (Console CouldNotRefresh) w))))
        as (es & -> & Hq).
      exists (Console CouldNotRefresh :: es); simpl. by rewrite <- app_assoc.
  - apply IHk.
Qed.

(** *** The branches of the scheduler *)

Lemma cancelRefreshTimer_state w : state (cancelRefreshTimer w) = state w.
Proof. unfold cancelRefreshTimer; by destruct (refreshTimerId w). Qed.

Lemma cancelRefreshTimer_clock w : clock (cancelRefreshTimer w) = clock w.
Proof. unfold cancelRefreshTimer; by destruct (refreshTimerId w). Qed.

Lemma cancelRefreshTimer_localStorage w :
  localStorage (cancelRefreshTimer w) = localStorage w.
Proof. unfold cancelRefreshTimer; by destruct (refreshTimerId w). Qed.

Lemma cancelRefreshTimer_refreshTimerId w :
  refreshTimerId (cancelRefreshTimer w) = refreshTimerId w.
Proof. unfold cancelRefreshTimer; by destruct (refreshTimerId w) eqn:E. Qed.

Lemma cancelRefreshTimer_nextTimer w :
  nextTimer (cancelRefreshTimer w) = nextTimer w.
Proof. unfold cancelRefreshTimer; by destruct (refreshTimerId w). Qed.

Lemma cancelRefreshTimer_inflight w :
  inflight (cancelRefreshTimer w) = inflight w.
Proof. unfold cancelRefreshTimer; by destruct (refreshTimerId w). Qed.

Lemma cancelRefreshTimer_nextRequest w :
  nextRequest (cancelRefreshTimer w) = nextRequest w.
Proof. unfold cancelRefreshTimer; by destruct (refreshTimerId w). Qed.

Lemma cancelRefreshTimer_timers w :
  timers (cancelRefreshTimer w) =
  match refreshTimerId w with
  | Some id => delete id (timers w)
  | None => timers w
  end.
Proof. unfold cancelRefreshTimer; by destruct (refreshTimerId w). Qed.

Lemma cancelRefreshTimer_trace w :
  trace (cancelRefreshTimer w) =
  trace w ++ match refreshTimerId w with
             | Some id => [ClearTimeout id]
             | None => []
             end.
Proof.
  unfold cancelRefreshTimer; destruct (refreshTimerId w); simpl; [done|].
  by rewrite app_nil_r.
Qed.

(** Refresh token expired (lines 76-78). *)
Lemma scheduleAutoRefresh_expired k w s :
  state w = Some s →
  refreshTokenExpiration s ≤ clock w →
  scheduleAutoRefresh k w =
  settle Resolved k
    (removeStateFromStorage (set_state None (cancelRefreshTimer w))).
Proof.
  intros Hs Hr. unfold scheduleAutoRefresh.
  rewrite cancelRefreshTimer_state, Hs, cancelRefreshTimer_clock.
  by rewrite (proj2 (Z.leb_le _ _) Hr).
Qed.

(** Access token expired, refresh token not (lines 80-86). *)
Lemma scheduleAutoRefresh_stale k w s :
  state w = Some s →
  clock w < refreshTokenExpiration s →
  accessTokenExpiration s ≤ clock w →
  scheduleAutoRefresh k w =
  httpPost withRefreshToken "/auth/refresh" [] (RefreshPost (catchLogout k))
    (cancelRefreshTimer w).
Proof.
  intros Hs Hr Ha. unfold scheduleAutoRefresh, refresh.
  rewrite cancelRefreshTimer_state, Hs, cancelRefreshTimer_clock.
  by rewrite (proj2 (Z.leb_gt _ _) Hr), (proj2 (Z.leb_le _ _) Ha).
Qed.

(** Neither token expired (lines 88-97). *)
Lemma scheduleAutoRefresh_fresh k w s :
  state w = Some s →
  clock w < refreshTokenExpiration s →
  clock w < accessTokenExpiration s →
  scheduleAutoRefresh k w =
  let refreshInMs := accessTokenExpiration s - 60000 - clock w in
  settle Resolved k
    (setTimeout refreshInMs
       (emit (Console (WillRefreshIn refreshInMs)) (cancelRefreshTimer w))).
Proof.
  intros Hs Hr Ha. unfold scheduleAutoRefresh.
  rewrite cancelRefreshTimer_state, Hs, cancelRefreshTimer_clock.
  rewrite (proj2 (Z.leb_gt _ _) Hr), (proj2 (Z.leb_gt _ _) Ha).
  unfold differenceInMilliseconds, subMinutes.
  by rewrite Z.mul_1_l.
Qed.

(** Not logged in (line 101). *)
Lemma scheduleAutoRefresh_absent k w :
  state w = None →
  scheduleAutoRefresh k w =
  settle Resolved k
    (emit (Console CannotEnableAutoRefresh) (cancelRefreshTimer w)).
Proof.
  intros Hs. unfold scheduleAutoRefresh.
  by rewrite cancelRefreshTimer_state, Hs.
Qed.

(** The scheduler's case analysis, for proofs by cases. *)
Lemma scheduleAutoRefresh_cases w :
  (state w = None) ∨
  (∃ s, state w = Some s ∧ refreshTokenExpiration s ≤ clock w) ∨
  (∃ s, state w = Some s ∧ clock w < refreshTokenExpiration s
        ∧ accessTokenExpiration s ≤ clock w) ∨
  (∃ s, state w = Some s ∧ clock w < refreshTokenExpiration s
        ∧ clock w < accessTokenExpiration s).
Proof.
  destruct (state w) as [s|]; [right|by left].
  destruct (Z_le_gt_dec (refreshTokenExpiration s) (clock w)); [left; eauto|right].
  destruct (Z_le_gt_dec (accessTokenExpiration s) (clock w)); [left|right];
    exists s; repeat split; (done || lia).
Qed.

(** *** The pending timeout is the one [refreshTimerId] names *)

Lemma timers_ok_boot store t0 : timers_ok (boot store t0).
Proof. split; intros id; simpl; [intros t|]; by rewrite ?lookup_empty. Qed.

(** Any step that arms nothing keeps the invariant. *)
Lemma timers_ok_shrink w w' :
  (∀ id t, timers w' !! id = Some t → timers w !! id = Some t) →
  refreshTimerId w' = refreshTimerId w →
  nextTimer w' = nextTimer w →
  timers_ok w → timers_ok w'.
Proof.
  intros Ht Hr Hn [Htr Hus]; split.
  - intros id t H. rewrite Hr. eauto.
  - intros id H. rewrite Hn. apply Hus. by rewrite <- Hr.
Qed.

Lemma timers_ok_frame w w' :
  timers w' = timers w →
  refreshTimerId w' = refreshTimerId w →
  nextTimer w' = nextTimer w →
  timers_ok w → timers_ok w'.
Proof. intros Ht. apply timers_ok_shrink. by rewrite Ht. Qed.

(** Once the tracked timeout is cleared none is pending. *)
Lemma cancelRefreshTimer_none w :
  timer_tracked w → timers (cancelRefreshTimer w) = ∅.
Proof.
  intros Htr. rewrite cancelRefreshTimer_timers. apply map_empty. intros id.
  destruct (refreshTimerId w) as [tid|] eqn:E.
  - destruct (decide (tid = id)) as [->|Hne]; [apply lookup_delete_eq|].
    rewrite lookup_delete_ne by done.
    destruct (timers w !! id) as [t|] eqn:Hid; [|done].
    apply Htr in Hid. congruence.
  - destruct (timers w !! id) as [t|] eqn:Hid; [|done].
    apply Htr in Hid. congruence.
Qed.

Lemma timers_ok_cancelRefreshTimer w :
  timers_ok w → timers_ok (cancelRefreshTimer w).
Proof.
  intros H. eapply timers_ok_shrink; [| | |exact H].
  - intros id t. rewrite cancelRefreshTimer_none by apply H.
    by rewrite lookup_empty.
  - apply cancelRefreshTimer_refreshTimerId.
  - apply cancelRefreshTimer_nextTimer.
Qed.

Lemma timers_ok_settle o k w : timers_ok w → timers_ok (settle o k w).
Proof.
  apply timers_ok_frame;
    [apply settle_timers|apply settle_refreshTimerId|apply settle_nextTimer].
Qed.

Lemma timers_ok_refresh k w : timers_ok w → timers_ok (refresh k w).
Proof.
  unfold refresh. destruct (state w); [|apply timers_ok_settle].
  by apply timers_ok_frame.
Qed.

(** Arming after the clear leaves exactly the new timeout. *)
Lemma setTimeout_after_cancel ms e w :
  timer_tracked w →
  timers (setTimeout ms (emit e (cancelRefreshTimer w))) =
  {[ nextTimer w := {| armedAt := clock w; delay := ms |} ]}.
Proof.
  intros Htr. simpl.
  rewrite cancelRefreshTimer_none, cancelRefreshTimer_nextTimer,
    cancelRefreshTimer_clock by done.
  apply insert_empty.
Qed.

Lemma timers_ok_scheduleAutoRefresh k w :
  timers_ok w → timers_ok (scheduleAutoRefresh k w).
Proof.
  intros H.
  destruct (scheduleAutoRefresh_cases w)
    as [Hs|[(s & Hs & Hr)|[(s & Hs & Hr & Ha)|(s & Hs & Hr & Ha)]]].
  - rewrite scheduleAutoRefresh_absent by done.
    apply timers_ok_settle.
    by eapply timers_ok_frame; [..|apply timers_ok_cancelRefreshTimer].
  - rewrite (scheduleAutoRefresh_expired k w s) by done.
    apply timers_ok_settle.
    by eapply timers_ok_frame; [..|apply timers_ok_cancelRefreshTimer].
  - rewrite (scheduleAutoRefresh_stale k w s) by done.
    by eapply timers_ok_frame; [..|apply timers_ok_cancelRefreshTimer].
  - rewrite (scheduleAutoRefresh_fresh k w s) by done. cbv zeta.
    apply timers_ok_settle. split.
    + intros id t. rewrite setTimeout_after_cancel by apply H.
      intros [<- _]%lookup_singleton_Some. simpl.
      by rewrite cancelRefreshTimer_nextTimer.
    + intros id. simpl. intros [= <-]. lia.
Qed.

Lemma timers_ok_clearTokens k w : timers_ok w → timers_ok (clearTokens k w).
Proof.
  intros H. unfold clearTokens. apply timers_ok_settle.
  by eapply timers_ok_frame; [..|apply timers_ok_cancelRefreshTimer].
Qed.

Lemma timers_ok_resume p r w : timers_ok w → timers_ok (resume p r w).
Proof.
  intros H. destruct p as [k|k|k|k], r as [data|[]]; unfold resume.
  - apply timers_ok_scheduleAutoRefresh. by eapply timers_ok_frame; [..|exact H].
  - by apply timers_ok_settle.
  - by apply timers_ok_settle.
  - apply timers_ok_scheduleAutoRefresh. by eapply timers_ok_frame; [..|exact H].
  - by apply timers_ok_settle.
  - by apply timers_ok_settle.
  - by apply timers_ok_clearTokens.
  - apply timers_ok_clearTokens. by eapply timers_ok_frame; [..|exact H].
  - by apply timers_ok_settle.
  - by apply timers_ok_settle.
  - by apply timers_ok_settle.
  - by apply timers_ok_settle.
Qed.

Lemma timers_ok_install w : timers_ok w → timers_ok (install w).
Proof.
  intros H. unfold install.
  destruct (readStateFromStorage w) as [[st|]|e].
  - eapply timers_ok_frame; [reflexivity..|].
    apply timers_ok_scheduleAutoRefresh.
    by eapply timers_ok_frame; [..|exact H].
  - by eapply timers_ok_frame; [..|exact H].
  - by eapply timers_ok_frame; [..|exact H].
Qed.

Lemma timers_ok_step e w : timers_ok w → timers_ok (step e w).
Proof.
  intros H. destruct e; simpl.
  - by apply timers_ok_install.
  - by eapply timers_ok_frame; [..|exact H].
  - by apply timers_ok_refresh.
  - unfold logout. destruct (state w); [|by apply timers_ok_settle].
    by eapply timers_ok_frame; [..|exact H].
  - by apply timers_ok_clearTokens.
  - destruct (inflight w !! id); [|done].
    apply timers_ok_resume. by eapply timers_ok_frame; [..|exact H].
  - destruct (timers w !! id) as [t|] eqn:Hid; [|done].
    destruct (due t <=? clock w); [|done].
    unfold refreshTimerCallback. apply timers_ok_refresh.
    eapply timers_ok_shrink; [| | |exact H]; simpl; [|done..].
    intros id' t'. by intros [_ ?]%lookup_delete_Some.
  - by eapply timers_ok_frame; [..|exact H].
  - by eapply timers_ok_frame; [..|exact H].
Qed.

Lemma timers_ok_run es w : timers_ok w → timers_ok (run es w).
Proof.
  revert w; induction es as [|e es IH]; intros w H; [done|].
  simpl. apply IH. by apply timers_ok_step.
Qed.

(** Under the invariant at most one timeout is pending. *)
Lemma timer_tracked_size w : timer_tracked w → (size (timers w) ≤ 1)%nat.
Proof.
  intros Htr.
  destruct (refreshTimerId w) as [tid|] eqn:E.
  - destruct (timers w !! tid) as [t|] eqn:Ht.
    + assert (timers w = {[ tid := t ]}) as ->; [|by rewrite map_size_singleton].
      apply map_eq. intros id.
      destruct (decide (tid = id)) as [<-|Hne].
      * by rewrite lookup_singleton_eq.
      * rewrite lookup_singleton_ne by done.
        destruct (timers w !! id) as [t'|] eqn:Hid; [|done].
        apply Htr in Hid. congruence.
    + assert (timers w = ∅) as ->; [|by rewrite map_size_empty; lia].
      apply map_empty. intros id.
      destruct (timers w !! id) as [t'|] eqn:Hid; [|done].
      pose proof (Htr _ _ Hid). congruence.
  - assert (timers w = ∅) as ->; [|by rewrite map_size_empty; lia].
    apply map_empty. intros id.
    destruct (timers w !! id) as [t'|] eqn:Hid; [|done].
    apply Htr in Hid. congruence.
Qed.

(** *** Write-through: the stored copy follows the session *)

Lemma in_sync_frame w w' :
  state w' = state w → localStorage w' = localStorage w →
  in_sync w → in_sync w'.
Proof. unfold in_sync. by intros -> ->. Qed.

Lemma in_sync_cleared w : in_sync (removeStateFromStorage (set_state None w)).
Proof. unfold in_sync; simpl. apply lookup_delete_eq. Qed.

Lemma in_sync_written s w : in_sync (writeStateToStorage s (set_state (Some s) w)).
Proof. unfold in_sync; simpl. apply lookup_insert_eq. Qed.

Lemma in_sync_settle o k w : in_sync w → in_sync (settle o k w).
Proof.
  revert o w; induction k; intros o w H; simpl.
  - done.
  - by destruct o.
  - destruct o; [by apply IHk|]. apply IHk, in_sync_cleared.
  - by apply IHk.
Qed.

(** A failed refresh that the scheduler awaits ends in [LoggedOut], whatever
    the world was. *)
Lemma in_sync_settle_catchLogout k w :
  in_sync (settle Rejected (catchLogout k) w).
Proof. simpl. apply in_sync_settle, in_sync_cleared. Qed.

Lemma in_sync_cancelRefreshTimer w : in_sync w → in_sync (cancelRefreshTimer w).
Proof.
  apply in_sync_frame;
    [apply cancelRefreshTimer_state|apply cancelRefreshTimer_localStorage].
Qed.

Lemma in_sync_scheduleAutoRefresh k w :
  in_sync w → in_sync (scheduleAutoRefresh k w).
Proof.
  intros H.
  destruct (scheduleAutoRefresh_cases w)
    as [Hs|[(s & Hs & Hr)|[(s & Hs & Hr & Ha)|(s & Hs & Hr & Ha)]]].
  - rewrite scheduleAutoRefresh_absent by done.
    by apply in_sync_settle, in_sync_cancelRefreshTimer.
  - rewrite (scheduleAutoRefresh_expired k w s) by done.
    apply in_sync_settle, in_sync_cleared.
  - rewrite (scheduleAutoRefresh_stale k w s) by done.
    by apply in_sync_cancelRefreshTimer.
  - rewrite (scheduleAutoRefresh_fresh k w s) by done. cbv zeta.
    by apply in_sync_settle, in_sync_cancelRefreshTimer.
Qed.

Lemma in_sync_clearTokens k w : in_sync (clearTokens k w).
Proof.
  unfold clearTokens.
  apply in_sync_settle.
  eapply in_sync_frame; [reflexivity..|]. apply in_sync_cleared.
Qed.

(** Reading back what [writeStateToStorage] wrote gives the session again:
    a stored object is the serialization of the session read from it. *)
Lemma readStateFromStorage_Some w s :
  readStateFromStorage w = Return (Some s) →
  localStorage w !! localStorageKey = Some (JSON_stringify s)
  ∧ clock w < refreshTokenExpiration s.
Proof.
  unfold readStateFromStorage.
  destruct (localStorage w !! localStorageKey) as [[raw| |o]|]; simpl; try done.
  destruct (Z.leb_spec (newDate (Parsed.refreshTokenExpiration o)) (clock w));
    [done|].
  intros [= <-]. split; [|done].
  destruct o as [? [?] ? [?] ? ? ?]. reflexivity.
Qed.

Lemma readStateFromStorage_stringify w s :
  localStorage w !! localStorageKey = Some (JSON_stringify s) →
  readStateFromStorage w =
  Return (if refreshTokenExpiration s <=? clock w then None else Some s).
Proof.
  unfold readStateFromStorage. intros ->. simpl.
  destruct (refreshTokenExpiration s <=? clock w); [done|].
  by destruct s.
Qed.

(** *** The navigation guard *)

(** C4. With [requiresAuth] and [redirectIfLoggedIn] read as [true] when
    absent, the guard redirects to Login exactly when the route requires
    authentication and there is no session, redirects to Home exactly when
    the route does not require authentication, asks for the redirect and
    there is a session, and lets the navigation through in every other
    case. *)
Theorem guard_policy (meta : option RouteMeta) (w : World) :
  let auth := metaFlag requiresAuth meta in
  let bounce := metaFlag redirectIfLoggedIn meta in
  (beforeEachGuard meta w = RedirectTo Login ↔ auth = true ∧ state w = None)
  ∧ (beforeEachGuard meta w = RedirectTo Home
     ↔ auth = false ∧ bounce = true ∧ state w ≠ None)
  ∧ (beforeEachGuard meta w = Proceed
     ↔ ¬ (auth = true ∧ state w = None)
       ∧ ¬ (auth = false ∧ bounce = true ∧ state w ≠ None)).
Proof.
  unfold beforeEachGuard.
  destruct meta as [[[[]|] [[]|]]|], (state w) as [s|]; simpl;
    repeat split; try done; intuition congruence.
Qed.

(** *** Operations while logged out *)

(** C10. Called while logged out, [logout()] and [refresh()] only resolve
    their promise: session, storage, timers, [refreshTimerId] and the
    network calls in flight are unchanged, and the trace gains no request,
    no [clearTimeout] and no navigation. *)
Theorem logged_out_calls_do_nothing (w : World) :
  state w = None →
  only_adds [Settled OpLogout Resolved] w (step CallLogout w)
  ∧ only_adds [Settled OpRefresh Resolved] w (step CallRefresh w).
Proof.
  intros Hs. split; simpl.
  - unfold logout. by rewrite Hs.
  - unfold refresh. by rewrite Hs.
Qed.

(** *** Rehydration *)

(** C2, as amended.  On a fresh page a stored value that is the JSON text
    [null] is an absent session: [readStateFromStorage] returns [null], the
    manager stays logged out and the entry is removed.  A stored value that
    is not JSON makes [JSON.parse] throw: the [SyntaxError] leaves
    [readStateFromStorage] and [install], the manager stays logged out, the
    entry stays and the guard is not installed. *)
Theorem rehydrate_unusable_storage (w : World) :
  state w = None →
  (localStorage w !! localStorageKey = Some JsonNull →
     readStateFromStorage w = Return None
     ∧ state (install w) = None
     ∧ localStorage (install w) !! localStorageKey = None
     ∧ trace (install w) = trace w ++ [RouterBeforeEach])
  ∧ (∀ raw, localStorage w !! localStorageKey = Some (NotJson raw) →
     readStateFromStorage w = Throw SyntaxError
     ∧ state (install w) = None
     ∧ localStorage (install w) = localStorage w
     ∧ trace (install w) = trace w ++ [Threw OpInstall SyntaxError]).
Proof.
  intros Hs. split.
  - intros Hst.
    assert (readStateFromStorage w = Return None) as Hr
      by (unfold readStateFromStorage; by rewrite Hst).
    unfold install. rewrite Hr. simpl.
    by rewrite lookup_delete_eq.
  - intros raw Hst.
    assert (readStateFromStorage w = Throw SyntaxError) as Hr
      by (unfold readStateFromStorage; by rewrite Hst).
    unfold install. by rewrite Hr.
Qed.

Lemma stringify_stateOfParsed o : JSON_stringify (stateOfParsed o) = JsonObject o.
Proof. by destruct o as [? [?] ? [?] ? ? ?]. Qed.

Lemma readStateFromStorage_object w o :
  localStorage w !! localStorageKey = Some (JsonObject o) →
  readStateFromStorage w =
  Return (if refreshTokenExpiration (stateOfParsed o) <=? clock w
          then None else Some (stateOfParsed o)).
Proof.
  unfold readStateFromStorage. intros ->. cbn [JSON_parse].
  change (newDate (Parsed.refreshTokenExpiration o))
    with (refreshTokenExpiration (stateOfParsed o)).
  by destruct (refreshTokenExpiration (stateOfParsed o) <=? clock w).
Qed.

(** What the scheduler leaves of a session whose refresh token is good. *)
Lemma scheduleAutoRefresh_keeps_session k w s :
  state w = Some s →
  clock w < refreshTokenExpiration s →
  state (scheduleAutoRefresh k w) = Some s
  ∧ localStorage (scheduleAutoRefresh k w) = localStorage w
  ∧ clock (scheduleAutoRefresh k w) = clock w.
Proof.
  intros Hs Hr.
  destruct (Z_le_gt_dec (accessTokenExpiration s) (clock w)) as [Ha|Ha].
  - rewrite (scheduleAutoRefresh_stale k w s) by done. simpl.
    by rewrite cancelRefreshTimer_state, cancelRefreshTimer_localStorage,
      cancelRefreshTimer_clock.
  - rewrite (scheduleAutoRefresh_fresh k w s) by (done || lia). cbv zeta.
    rewrite settle_Resolved_state, settle_Resolved_localStorage, settle_clock.
    simpl.
    by rewrite cancelRefreshTimer_state, cancelRefreshTimer_localStorage,
      cancelRefreshTimer_clock.
Qed.

(** What it leaves of one whose refresh token has expired. *)
Lemma scheduleAutoRefresh_drops_session k w s :
  state w = Some s →
  refreshTokenExpiration s ≤ clock w →
  state (scheduleAutoRefresh k w) = None
  ∧ localStorage (scheduleAutoRefresh k w) = delete localStorageKey (localStorage w)
  ∧ inflight (scheduleAutoRefresh k w) = inflight w
  ∧ nextRequest (scheduleAutoRefresh k w) = nextRequest w
  ∧ timers (scheduleAutoRefresh k w) = timers (cancelRefreshTimer w).
Proof.
  intros Hs Hr. rewrite (scheduleAutoRefresh_expired k w s) by done.
  rewrite settle_Resolved_state, settle_Resolved_localStorage, settle_inflight,
    settle_nextRequest, settle_timers. simpl.
  by rewrite cancelRefreshTimer_localStorage, cancelRefreshTimer_inflight,
    cancelRefreshTimer_nextRequest.
Qed.

(** C5. On a fresh page with a stored session: if its refresh token
    expiration is at or before the current time, rehydration leaves the
    manager logged out and the "auth" entry absent; otherwise the manager is
    logged in with the stored session and the scheduler has run on it, so
    that a refresh timer is pending or a refresh request is in flight. *)
Theorem rehydrate_stored_session (w : World) (o : Parsed.t) :
  state w = None →
  localStorage w !! localStorageKey = Some (JsonObject o) →
  (refreshTokenExpiration (stateOfParsed o) ≤ clock w →
     state (install w) = None
     ∧ localStorage (install w) !! localStorageKey = None)
  ∧ (clock w < refreshTokenExpiration (stateOfParsed o) →
     state (install w) = Some (stateOfParsed o)
     ∧ install w =
       emit RouterBeforeEach
         (scheduleAutoRefresh catchConsoleError
            (set_state (Some (stateOfParsed o)) w))
     ∧ (is_Some (timers (install w) !! nextTimer w)
        ∨ inflight (install w) !! nextRequest w
          = Some (RefreshPost (catchLogout catchConsoleError)))).
Proof.
  intros Hs Hst. split; intros Hr.
  - assert (readStateFromStorage w = Return None) as Hread.
    { rewrite (readStateFromStorage_object w o) by done.
      by rewrite (proj2 (Z.leb_le _ _) Hr). }
    unfold install. rewrite Hread. simpl. split; [done|apply lookup_delete_eq].
  - assert (readStateFromStorage w = Return (Some (stateOfParsed o))) as Hread.
    { rewrite (readStateFromStorage_object w o) by done.
      by rewrite (proj2 (Z.leb_gt _ _) Hr). }
    unfold install. rewrite Hread.
    set (w1 := set_state (Some (stateOfParsed o)) w).
    destruct (scheduleAutoRefresh_keeps_session catchConsoleError w1
                (stateOfParsed o)) as (Hk & _); [done..|].
    split; [done|]. split; [done|].
    change (nextTimer w) with (nextTimer w1).
    change (nextRequest w) with (nextRequest w1).
    destruct (Z_le_gt_dec (accessTokenExpiration (stateOfParsed o)) (clock w1))
      as [Ha|Ha].
    + right. rewrite (scheduleAutoRefresh_stale _ w1 (stateOfParsed o)) by done.
      cbn [emit httpPost inflight].
      rewrite cancelRefreshTimer_nextRequest. apply lookup_insert_eq.
    + left. rewrite (scheduleAutoRefresh_fresh _ w1 (stateOfParsed o))
        by (done || lia).
      cbv zeta. cbn [emit timers]. rewrite settle_timers.
      cbn [emit setTimeout timers nextTimer].
      rewrite cancelRefreshTimer_nextTimer, lookup_insert_eq. eauto.
Qed.

Lemma readStateFromStorage_ext w w' :
  localStorage w' = localStorage w → clock w' = clock w →
  readStateFromStorage w' = readStateFromStorage w.
Proof. unfold readStateFromStorage. by intros -> ->. Qed.

(** What [install] does to the session and its stored copy, by what it
    read. *)
Lemma install_read w :
  match readStateFromStorage w with
  | Return (Some s) =>
      state (install w) = Some s
      ∧ localStorage (install w) = localStorage w
      ∧ clock (install w) = clock w
  | Return None =>
      state (install w) = state w
      ∧ localStorage (install w) = delete localStorageKey (localStorage w)
      ∧ clock (install w) = clock w
  | Throw e => install w = emit (Threw OpInstall e) w
  end.
Proof.
  unfold install.
  destruct (readStateFromStorage w) as [[s|]|e] eqn:Hread; [|done..].
  apply readStateFromStorage_Some in Hread as [_ Hr].
  cbn [emit state localStorage clock].
  by apply (scheduleAutoRefresh_keeps_session _ (set_state (Some s) w)).
Qed.

(** Rehydrating again from the storage [store], right after [install w]. *)
Lemma install_again w store :
  store = localStorage w ∨ store = localStorage (install w) →
  state (install (set_localStorage store (install w))) = state (install w).
Proof.
  intros Hstore.
  pose proof (install_read w) as H1.
  set (w1 := set_localStorage store (install w)).
  pose proof (install_read w1) as H2.
  destruct (readStateFromStorage w) as [[s|]|e] eqn:Hread.
  - destruct H1 as (Hs & Hst & Hc).
    assert (readStateFromStorage w1 = Return (Some s)) as Hread1.
    { rewrite <- Hread. apply readStateFromStorage_ext; [|done].
      unfold w1; simpl. destruct Hstore; congruence. }
    rewrite Hread1 in H2. destruct H2 as (-> & _). by rewrite Hs.
  - destruct H1 as (Hs & Hst & Hc).
    assert (readStateFromStorage w1 = Return None) as Hread1.
    { destruct Hstore as [->| ->].
      - rewrite <- Hread. by apply readStateFromStorage_ext.
      - unfold readStateFromStorage, w1; simpl.
        by rewrite Hst, lookup_delete_eq. }
    rewrite Hread1 in H2. by destruct H2 as (-> & _).
  - assert (readStateFromStorage w1 = Throw e) as Hread1.
    { rewrite <- Hread. apply readStateFromStorage_ext;
        unfold w1; rewrite H1; simpl; [|done].
      destruct Hstore as [->| ->]; [done|]. by rewrite H1. }
    rewrite Hread1 in H2. rewrite H2. done.
Qed.

(** C7. Rehydrating twice in succession gives the in-memory session that
    rehydrating once gives, whether the second run finds the storage as the
    first left it or finds the value the first run found; and in every
    reachable world the second run leaves at most one refresh timer
    pending. *)
Theorem rehydration_idempotent :
  (∀ w : World,
     state (install (install w)) = state (install w)
     ∧ state (install (set_localStorage (localStorage w) (install w)))
       = state (install w))
  ∧ (∀ es store t0,
       let w := run es (boot store t0) in
       (size (timers (install (install w))) ≤ 1)%nat
       ∧ (size (timers (install (set_localStorage (localStorage w) (install w))))
          ≤ 1)%nat).
Proof.
  split.
  - intros w. split.
    + pose proof (install_again w (localStorage (install w))) as H.
      replace (set_localStorage (localStorage (install w)) (install w))
        with (install w) in H by (by destruct (install w)).
      apply H. by right.
    + apply install_again. by left.
  - intros es store t0 w.
    assert (timers_ok (install w)) as Hok
      by apply timers_ok_install, timers_ok_run, timers_ok_boot.
    split; apply timer_tracked_size; apply timers_ok_install; [done|].
    by eapply timers_ok_frame; [..|exact Hok].
Qed.

(** *** Transitions into [LoggedIn] *)

(** Such a transition stores the session and runs the scheduler on it. *)
Lemma logs_in_scheduler w e s :
  logs_in w e s →
  ∃ k w0 tl,
    state w0 = Some s
    ∧ clock w0 = clock w
    ∧ timers w0 = timers w
    ∧ refreshTimerId w0 = refreshTimerId w
    ∧ nextTimer w0 = nextTimer w
    ∧ nextRequest w0 = nextRequest w
    ∧ trace w0 = trace w
    ∧ in_sync w0
    ∧ only_adds tl (scheduleAutoRefresh k w0) (step e w).
Proof.
  intros [id k data Hid|id k data Hid|o Hst Hr].
  - exists (awaited OpLogin k),
      (writeStateToStorage (stateOfResponse data)
         (set_state (Some (stateOfResponse data))
            (set_inflight (delete id (inflight w)) w))), [].
    cbn [step]. rewrite Hid. cbn [resume].
    do 7 (split; [reflexivity|]).
    split; [apply in_sync_written|].
    repeat split. by rewrite app_nil_r.
  - exists (awaited OpRefresh k),
      (writeStateToStorage (stateOfResponse data)
         (set_state (Some (stateOfResponse data))
            (set_inflight (delete id (inflight w)) w))), [].
    cbn [step]. rewrite Hid. cbn [resume].
    do 7 (split; [reflexivity|]).
    split; [apply in_sync_written|].
    repeat split. by rewrite app_nil_r.
  - exists catchConsoleError, (set_state (Some (stateOfParsed o)) w),
      [RouterBeforeEach].
    cbn [step]. unfold install.
    rewrite (readStateFromStorage_object w o) by done.
    rewrite (proj2 (Z.leb_gt _ _) Hr).
    do 7 (split; [reflexivity|]).
    split; [|by repeat split].
    unfold in_sync; simpl. by rewrite stringify_stateOfParsed.
Qed.

(** A run of the scheduler arms nothing or leaves the new timeout alone. *)
Lemma scheduleAutoRefresh_arms k w :
  timers_ok w →
  (nextTimer (scheduleAutoRefresh k w) = nextTimer w
   ∧ timers (scheduleAutoRefresh k w) = ∅)
  ∨ (∃ s, state w = Some s
          ∧ clock w < refreshTokenExpiration s
          ∧ clock w < accessTokenExpiration s
          ∧ nextTimer (scheduleAutoRefresh k w) = S (nextTimer w)
          ∧ refreshTimerId (scheduleAutoRefresh k w) = Some (nextTimer w)
          ∧ timers (scheduleAutoRefresh k w) =
            {[ nextTimer w :=
                 {| armedAt := clock w;
                    delay := accessTokenExpiration s - 60000 - clock w |} ]}).
Proof.
  intros [Htr _].
  destruct (scheduleAutoRefresh_cases w)
    as [Hs|[(s & Hs & Hr)|[(s & Hs & Hr & Ha)|(s & Hs & Hr & Ha)]]].
  - left. rewrite scheduleAutoRefresh_absent by done.
    rewrite settle_nextTimer, settle_timers. simpl.
    by rewrite cancelRefreshTimer_nextTimer, cancelRefreshTimer_none.
  - left. rewrite (scheduleAutoRefresh_expired k w s) by done.
    rewrite settle_nextTimer, settle_timers. simpl.
    by rewrite cancelRefreshTimer_nextTimer, cancelRefreshTimer_none.
  - left. rewrite (scheduleAutoRefresh_stale k w s) by done. simpl.
    by rewrite cancelRefreshTimer_nextTimer, cancelRefreshTimer_none.
  - right. exists s. rewrite (scheduleAutoRefresh_fresh k w s) by done.
    cbv zeta.
    rewrite settle_nextTimer, settle_timers, settle_refreshTimerId.
    rewrite setTimeout_after_cancel by done. simpl.
    by rewrite cancelRefreshTimer_nextTimer.
Qed.

Lemma refresh_nextTimer k w : nextTimer (refresh k w) = nextTimer w.
Proof. unfold refresh. destruct (state w); [done|apply settle_nextTimer]. Qed.

Lemma clearTokens_nextTimer k w : nextTimer (clearTokens k w) = nextTimer w.
Proof.
  unfold clearTokens. rewrite settle_nextTimer. simpl.
  apply cancelRefreshTimer_nextTimer.
Qed.

(** A step that arms a timeout leaves that timeout alone. *)
Lemma step_arms e w :
  timers_ok w →
  nextTimer (step e w) = nextTimer w
  ∨ ∃ t, timers (step e w) = {[ nextTimer w := t ]}.
Proof.
  intros H.
  assert (∀ k w0, timers w0 = timers w → refreshTimerId w0 = refreshTimerId w →
            nextTimer w0 = nextTimer w →
            nextTimer (scheduleAutoRefresh k w0) = nextTimer w
            ∨ ∃ t, timers (scheduleAutoRefresh k w0) = {[ nextTimer w := t ]})
    as Hsched.
  { intros k w0 Ht Hr Hn.
    destruct (scheduleAutoRefresh_arms k w0) as [[Hn' _]|(s & _ & _ & _ & _ & _ & Ht')].
    - by eapply timers_ok_frame; [..|exact H].
    - left. congruence.
    - right. rewrite Ht', Hn. eauto. }
  destruct e; cbn [step].
  - unfold install. destruct (readStateFromStorage w) as [[s|]|err];
      [|by left..].
    cbn [emit nextTimer timers]. by apply Hsched.
  - by left.
  - left. apply refresh_nextTimer.
  - left. unfold logout. destruct (state w); [done|apply settle_nextTimer].
  - left. apply clearTokens_nextTimer.
  - destruct (inflight w !! id) as [[k|k|k|k]|]; [| | | |by left];
      destruct r as [data|[]]; cbn [resume].
    + by apply Hsched.
    + left. by rewrite settle_nextTimer.
    + left. by rewrite settle_nextTimer.
    + by apply Hsched.
    + left. by rewrite settle_nextTimer.
    + left. by rewrite settle_nextTimer.
    + left. by rewrite clearTokens_nextTimer.
    + left. by rewrite clearTokens_nextTimer.
    + left. by rewrite settle_nextTimer.
    + left. by rewrite settle_nextTimer.
    + left. by rewrite settle_nextTimer.
    + left. by rewrite settle_nextTimer.
  - left. destruct (timers w !! id); [|done].
    destruct (due t <=? clock w); [|done].
    unfold refreshTimerCallback. by rewrite refresh_nextTimer.
  - by left.
  - by left.
Qed.

(** C6, as amended.  In every world reachable from a fresh page at most one
    refresh timer is pending; a step that arms a timer leaves no timer that
    was pending before it; and after a transition into [LoggedIn] with a
    session whose refresh token and access token are both unexpired exactly
    one refresh timer is outstanding. *)
Theorem refresh_timer_discipline (es : list Event)
    (store : gmap string StoredText) (t0 : Z) :
  let w := run es (boot store t0) in
  (size (timers w) ≤ 1)%nat
  ∧ (∀ e id,
       is_Some (timers w !! id) →
       nextTimer (step e w) ≠ nextTimer w →
       timers (step e w) !! id = None
       ∧ is_Some (timers (step e w) !! nextTimer w))
  ∧ (∀ e s,
       logs_in w e s →
       clock w < refreshTokenExpiration s →
       clock w < accessTokenExpiration s →
       size (timers (step e w)) = 1%nat).
Proof.
  intros w.
  assert (timers_ok w) as Hok by apply timers_ok_run, timers_ok_boot.
  split; [apply timer_tracked_size, Hok|]. split.
  - intros e id [t Hid] Hne.
    destruct (step_arms e w Hok) as [Heq|[t' Ht']]; [done|].
    rewrite Ht'. destruct Hok as [Htr Hus].
    apply Htr, Hus in Hid.
    rewrite lookup_singleton_ne by lia.
    by rewrite lookup_singleton_eq.
  - intros e s Hin Hr Ha.
    destruct (logs_in_scheduler w e s Hin)
      as (k & w0 & tl & Hs & Hc & Ht & Hid & Hn & _ & _ & _ & Honly).
    destruct Honly as (_ & _ & _ & _ & -> & _).
    assert (timers_ok w0) as Hok0 by (by eapply timers_ok_frame; [..|exact Hok]).
    rewrite (scheduleAutoRefresh_fresh k w0 s) by (done || lia). cbv zeta.
    rewrite settle_timers, setTimeout_after_cancel by apply Hok0.
    apply map_size_singleton.
Qed.

(** *** The scheduling algorithm *)

(** C3. At every transition into [LoggedIn] (login, refresh or rehydrate)
    with session [s] at time [now], in a world reachable from a fresh page:
    if the refresh token expiration is at or before [now] the manager is
    logged out and the stored entry removed; else if the access token
    expiration is at or before [now] a refresh request is sent at once;
    else one timeout is armed with the delay
    [(accessTokenExpiration - 1 minute) - now], and running that timeout
    calls [refresh()].  In particular an access token that expires at
    [now + 5 min] arms the timeout for [now + 4 min]. *)
Theorem scheduler_three_branches (es : list Event)
    (store : gmap string StoredText) (t0 : Z) (e : Event) (s : State) :
  let w := run es (boot store t0) in
  let w' := step e w in
  let now := clock w in
  logs_in w e s →
  (refreshTokenExpiration s ≤ now →
     state w' = None
     ∧ localStorage w' !! localStorageKey = None
     ∧ timers w' = ∅
     ∧ nextRequest w' = nextRequest w)
  ∧ (now < refreshTokenExpiration s → accessTokenExpiration s ≤ now →
     state w' = Some s
     ∧ (∃ k, inflight w' !! nextRequest w = Some (RefreshPost (catchLogout k)))
     ∧ HttpPost (nextRequest w) withRefreshToken "/auth/refresh" [] ∈ trace w'
     ∧ timers w' = ∅)
  ∧ (now < refreshTokenExpiration s → now < accessTokenExpiration s →
     state w' = Some s
     ∧ refreshTimerId w' = Some (nextTimer w)
     ∧ timers w' =
       {[ nextTimer w :=
            {| armedAt := now;
               delay := (accessTokenExpiration s - 60000) - now |} ]}
     ∧ nextRequest w' = nextRequest w)
  ∧ (now < refreshTokenExpiration s → accessTokenExpiration s = now + 300000 →
     ∃ t, timers w' = {[ nextTimer w := t ]}
          ∧ delay t = 240000 ∧ due t = now + 240000)
  ∧ (∀ w2 id t, timers w2 !! id = Some t →
       (clock w2 < due t → step (TimerFires id) w2 = w2)
       ∧ (due t ≤ clock w2 →
          step (TimerFires id) w2 =
          refresh catchConsoleError
            (emit (Console RefreshingAccessToken)
               (set_timers (delete id (timers w2)) w2)))).
Proof.
  intros w w' now Hin.
  assert (timers_ok w) as Hok by apply timers_ok_run, timers_ok_boot.
  destruct (logs_in_scheduler w e s Hin)
    as (k & w0 & tl & Hs & Hc & Ht & Hid & Hn & Hq & Htrace & _ & Honly).
  destruct Honly as (Ost & Oid & Ols & Ocl & Otm & Ont & Oin & Onr & Otr).
  fold w' in Ost, Oid, Ols, Ocl, Otm, Ont, Oin, Onr, Otr.
  assert (timers_ok w0) as Hok0 by (by eapply timers_ok_frame; [..|exact Hok]).
  assert (now < refreshTokenExpiration s → now < accessTokenExpiration s →
          state w' = Some s
          ∧ refreshTimerId w' = Some (nextTimer w)
          ∧ timers w' =
            {[ nextTimer w :=
                 {| armedAt := now;
                    delay := (accessTokenExpiration s - 60000) - now |} ]}
          ∧ nextRequest w' = nextRequest w) as Hfresh.
  { intros Hr Ha. rewrite Ost, Oid, Otm, Onr.
    rewrite (scheduleAutoRefresh_fresh k w0 s) by (done || lia). cbv zeta.
    rewrite settle_Resolved_state, settle_refreshTimerId, settle_timers,
      settle_nextRequest.
    rewrite setTimeout_after_cancel by apply Hok0. simpl.
    by rewrite cancelRefreshTimer_state, cancelRefreshTimer_nextTimer,
      cancelRefreshTimer_nextRequest, Hs, Hn, Hq, Hc. }
  split; [|split; [|split; [done|split]]].
  - intros Hr.
    destruct (scheduleAutoRefresh_drops_session k w0 s)
      as (Hst & Hls & _ & Hnr & Htm); [done|lia|].
    rewrite Ost, Ols, Otm, Onr, Hst, Hls, Htm, Hnr.
    rewrite cancelRefreshTimer_none by apply Hok0.
    by rewrite lookup_delete_eq.
  - intros Hr Ha. rewrite Ost, Oin, Otm, Otr.
    rewrite (scheduleAutoRefresh_stale k w0 s) by (done || lia). simpl.
    rewrite cancelRefreshTimer_state, cancelRefreshTimer_nextRequest,
      cancelRefreshTimer_none by apply Hok0.
    rewrite Hq, lookup_insert_eq.
    split; [done|]. split; [eauto|]. split; [|done].
    apply elem_of_app. left. apply elem_of_app. right.
    by apply list_elem_of_singleton.
  - intros Hr Ha.
    destruct Hfresh as (_ & _ & Htm & _); [done|lia|].
    eexists. split; [exact Htm|]. unfold due; simpl.
    replace (accessTokenExpiration s - 60000 - now) with 240000 by lia.
    change (toLong 240000) with 240000. split; lia.
  - intros w2 id t Hid2. cbn [step]. rewrite Hid2. split; intros Hd.
    + by rewrite (proj2 (Z.leb_gt _ _) Hd).
    + by rewrite (proj2 (Z.leb_le _ _) Hd).
Qed.

(** *** Write-through after each mutation *)

Lemma readStateFromStorage_Throw w e :
  readStateFromStorage w = Throw e →
  ∃ raw, localStorage w !! localStorageKey = Some (NotJson raw).
Proof.
  unfold readStateFromStorage.
  destruct (localStorage w !! localStorageKey) as [[raw| |o]|]; simpl;
    [eauto|done| |done].
  by destruct (_ <=? _).
Qed.

(** C9, as amended.  After a successful login, a successful refresh, a
    logout that goes on to [clearTokens] (its request fulfilled, or rejected
    with a value the message of line 163 can be built from), a logout forced
    by the scheduler, and the rehydration on a fresh page of a storage entry
    that is absent, is the text [null] or is a serialized session, storage
    and memory agree: a session in memory has its serialization under
    "auth", and with no session in memory the entry is absent. *)
Theorem write_through (w : World) (e : Event) :
  mutation w e → in_sync (step e w).
Proof.
  intros [id k data Hid|id k data Hid|id k r Hid Hr|id k e' Hid|Hs Hjson];
    cbn [step]; rewrite ?Hid; cbn [resume].
  - apply in_sync_scheduleAutoRefresh, in_sync_written.
  - apply in_sync_scheduleAutoRefresh, in_sync_written.
  - destruct r as [data|[]]; [apply in_sync_clearTokens..|by destruct Hr].
  - apply in_sync_settle_catchLogout.
  - unfold install.
    destruct (readStateFromStorage w) as [[s|]|err] eqn:Hread.
    + apply readStateFromStorage_Some in Hread as [Hst _].
      eapply in_sync_frame; [reflexivity..|].
      apply in_sync_scheduleAutoRefresh. by unfold in_sync.
    + eapply in_sync_frame; [reflexivity..|].
      unfold in_sync; simpl. rewrite Hs. apply lookup_delete_eq.
    + apply readStateFromStorage_Throw in Hread as [raw Hraw].
      rewrite Hraw in Hjson. by destruct Hjson as [?|[?|[o ?]]].
Qed.

(** *** Logout *)

(** While logged in, [logout()] sends the authenticated logout request.
    When that request is fulfilled, or rejected with a value the message of
    line 163 can be built from, the tracked timer is cleared so that none is
    pending, the session is absent, the stored entry is removed, the router
    is sent to Login and the promise of [logout()] is resolved: the
    rejection is written to the console and goes no further. *)
Lemma logout_clears_once_logged (es : list Event)
    (store : gmap string StoredText) (t0 : Z) :
  let w := run es (boot store t0) in
  (∀ s, state w = Some s →
     step CallLogout w =
     httpPost authenticated "/auth/logout" [] (LogoutPost (caller OpLogout)) w
     ∧ inflight (step CallLogout w) !! nextRequest w
       = Some (LogoutPost (caller OpLogout))
     ∧ trace (step CallLogout w) =
       trace w ++ [HttpPost (nextRequest w) authenticated "/auth/logout" []])
  ∧ (∀ id r, inflight w !! id = Some (LogoutPost (caller OpLogout)) →
       reaches_clearTokens r →
       let w' := step (HttpSettles id r) w in
       state w' = None
       ∧ localStorage w' !! localStorageKey = None
       ∧ timers w' = ∅
       ∧ inflight w' = delete id (inflight w)
       ∧ nextRequest w' = nextRequest w
       ∧ trace w' =
         trace w
         ++ match r with Err _ => [Console LogoutFailed] | Ok _ => [] end
         ++ match refreshTimerId w with
            | Some tid => [ClearTimeout tid]
            | None => []
            end
         ++ [RouterPush Login; Settled OpLogout Resolved]).
Proof.
  intros w.
  assert (timers_ok w) as Hok by apply timers_ok_run, timers_ok_boot.
  split.
  - intros s Hs. cbn [step]. unfold logout. rewrite Hs.
    split; [done|]. split; [apply lookup_insert_eq|done].
  - intros id r Hid Hr w'. unfold w'. cbn [step]. rewrite Hid.
    destruct r as [data|[]]; [| |by destruct Hr];
      cbn [resume]; unfold clearTokens; cbn [settle];
      cbn [emit set_state removeStateFromStorage set_localStorage set_inflight
             state localStorage timers inflight nextRequest trace];
      rewrite cancelRefreshTimer_localStorage, cancelRefreshTimer_inflight,
        cancelRefreshTimer_nextRequest, cancelRefreshTimer_trace,
        cancelRefreshTimer_none by (by destruct Hok);
      cbn [set_inflight emit localStorage inflight nextRequest trace
             refreshTimerId];
      rewrite lookup_delete_eq, <- ?app_assoc; by repeat split.
Qed.

(** When the message of line 163 cannot be built, the [catch] block itself
    throws: line 166 is not reached, the promise of [logout()] is rejected
    and nothing else changes. *)
Lemma logout_rejected_when_unserializable w id :
  inflight w !! id = Some (LogoutPost (caller OpLogout)) →
  only_adds [Settled OpLogout Rejected]
    (set_inflight (delete id (inflight w)) w)
    (step (HttpSettles id (Err Unserializable)) w).
Proof. intros Hid. cbn [step]. rewrite Hid. by repeat split. Qed.

(** C8, where the code departs from it.  On [logged_in], [logout()] sends
    the authenticated logout request (request 1).  When that request is
    rejected with a value that [JSON.stringify] throws on, the session, its
    stored copy and the pending timer 0 are all still there, the router is
    not sent anywhere and the promise of [logout()] is rejected.  When the
    same request is rejected with a value that can be serialized, the
    failure is written to the console, timer 0 is cleared, the session and
    the stored entry are gone, the router is sent to Login and the promise
    is resolved. *)
Theorem logout_keeps_session_when_unserializable :
  let s := stateOfResponse (response 300000 900000) in
  let w := step CallLogout logged_in in
  let bad := step (HttpSettles 1 (Err Unserializable)) w in
  let good := step (HttpSettles 1 (Err Serializable)) w in
  (state logged_in = Some s
   ∧ inflight w !! 1%nat = Some (LogoutPost (caller OpLogout))
   ∧ trace w = trace logged_in ++ [HttpPost 1 authenticated "/auth/logout" []])
  ∧ (state bad = Some s
     ∧ localStorage bad !! localStorageKey = Some (JSON_stringify s)
     ∧ refreshTimerId bad = Some 0%nat
     ∧ timers bad !! 0%nat = Some {| armedAt := 0; delay := 240000 |}
     ∧ trace bad = trace w ++ [Settled OpLogout Rejected])
  ∧ (state good = None
     ∧ localStorage good !! localStorageKey = None
     ∧ timers good !! 0%nat = None
     ∧ trace good =
       trace w ++ [Console LogoutFailed; ClearTimeout 0; RouterPush Login;
                   Settled OpLogout Resolved]).
Proof.
  cbv zeta.
  assert (inflight (step CallLogout logged_in) !! 1%nat
          = Some (LogoutPost (caller OpLogout))) as Hid
    by (vm_compute; reflexivity).
  split; [|split].
  - split; [reflexivity|]. split; [exact Hid|]. vm_compute. reflexivity.
  - destruct (logout_rejected_when_unserializable _ _ Hid)
      as (Hs & Hr & Hl & _ & Ht & _ & _ & _ & Htr).
    rewrite Hs, Hr, Hl, Ht, Htr.
    repeat split; vm_compute; reflexivity.
  - repeat split; vm_compute; reflexivity.
Qed.

(** *** A refresh that fails *)

(** A refresh started by the timer callback (lines 94-97) that fails is
    written to the console and changes nothing else. *)
Lemma timer_refresh_failure_logged_only w id e :
  inflight w !! id = Some (RefreshPost catchConsoleError) →
  only_adds [Console UncaughtRejection]
    (set_inflight (delete id (inflight w)) w)
    (step (HttpSettles id (Err e)) w).
Proof. intros Hid. cbn [step]. rewrite Hid. by repeat split. Qed.

(** C1, as amended.  When a refresh that the scheduler attempted at once
    fails, the manager is logged out: the session is absent, the stored
    entry is removed, no further request is sent and no timer is touched;
    the scheduler had cleared the tracked timer when it made the attempt,
    so that none was pending then.  When a [refresh()] called by the
    application fails, the rejection goes to the caller and session,
    storage and timers stay as they were. *)
Theorem refresh_failure (es : list Event)
    (store : gmap string StoredText) (t0 : Z) :
  let w := run es (boot store t0) in
  (∀ id k v, inflight w !! id = Some (RefreshPost (catchLogout k)) →
     let w' := step (HttpSettles id (Err v)) w in
     state w' = None
     ∧ localStorage w' !! localStorageKey = None
     ∧ timers w' = timers w
     ∧ inflight w' = delete id (inflight w)
     ∧ nextRequest w' = nextRequest w
     ∧ ∃ tl, trace w' = trace w ++ Console CouldNotRefresh :: tl
             ∧ forallb quiet tl = true)
  ∧ (∀ e s, logs_in w e s →
       clock w < refreshTokenExpiration s →
       accessTokenExpiration s ≤ clock w →
       timers (step e w) = ∅
       ∧ ∃ k, inflight (step e w) !! nextRequest w
              = Some (RefreshPost (catchLogout k)))
  ∧ (∀ id v, inflight w !! id = Some (RefreshPost (caller OpRefresh)) →
       only_adds [Settled OpRefresh Rejected]
         (set_inflight (delete id (inflight w)) w)
         (step (HttpSettles id (Err v)) w)).
Proof.
  intros w.
  assert (timers_ok w) as Hok by apply timers_ok_run, timers_ok_boot.
  split; [|split].
  - intros id k v Hid w'. unfold w'. cbn [step]. rewrite Hid.
    cbn [resume settle].
    rewrite settle_Resolved_state, settle_Resolved_localStorage, settle_timers,
      settle_inflight, settle_nextRequest.
    cbn [emit set_state removeStateFromStorage set_localStorage set_inflight
           state localStorage timers inflight nextRequest].
    rewrite lookup_delete_eq. do 5 (split; [done|]).
    destruct (settle_trace Resolved k
      (removeStateFromStorage (set_state None
         (emit (Console CouldNotRefresh)
            (set_inflight (delete id (inflight w)) w)))))
      as (tl & -> & Hq).
    exists tl. split; [|done]. simpl. by rewrite <- app_assoc.
  - intros e s Hin Hr Ha.
    destruct (logs_in_scheduler w e s Hin)
      as (k & w0 & tl & Hs & Hc & Ht & Hid & Hn & Hq & _ & _ & Honly).
    destruct Honly as (_ & _ & _ & _ & -> & _ & -> & _).
    assert (timers_ok w0) as Hok0 by (by eapply timers_ok_frame; [..|exact Hok]).
    rewrite (scheduleAutoRefresh_stale k w0 s) by (done || lia). simpl.
    rewrite cancelRefreshTimer_none, cancelRefreshTimer_nextRequest
      by apply Hok0.
    split; [done|]. exists k. rewrite Hq. apply lookup_insert_eq.
  - intros id v Hid. cbn [step]. rewrite Hid. by repeat split.
Qed.

(** ** Counterexamples and witnesses on the worked runs *)

(** C1, counterexample: logged in, the application calls [refresh()] and the
    request fails; the session, its stored copy and the pending timer are all
    still there. *)
Lemma explicit_refresh_failure_keeps_session :
  inflight (step CallRefresh logged_in) !! 1%nat
    = Some (RefreshPost (caller OpRefresh))
  ∧ state (step (HttpSettles 1 (Err Serializable)) (step CallRefresh logged_in))
    = Some (stateOfResponse (response 300000 900000))
  ∧ localStorage (step (HttpSettles 1 (Err Serializable)) (step CallRefresh logged_in))
      !! localStorageKey
    = Some (JSON_stringify (stateOfResponse (response 300000 900000)))
  ∧ timers (step (HttpSettles 1 (Err Serializable)) (step CallRefresh logged_in)) !! 0%nat
    = Some {| armedAt := 0; delay := 240000 |}.
Proof. by vm_compute. Qed.

(** C2, counterexample: with an "auth" entry that is not JSON,
    [readStateFromStorage] throws instead of returning [null]. *)
Lemma corrupt_entry_throws :
  readStateFromStorage corrupt_page = Throw SyntaxError
  ∧ readStateFromStorage corrupt_page ≠ Return None.
Proof. split; [by vm_compute|]. by vm_compute. Qed.

(** C6, counterexample: rehydrating a session whose access token has expired
    is a transition into [LoggedIn] after which no timer is outstanding. *)
Lemma logged_in_without_timer :
  logs_in stale_page CallInstall (stateOfResponse (response 0 10))
  ∧ state (step CallInstall stale_page)
    = Some (stateOfResponse (response 0 10))
  ∧ size (timers (step CallInstall stale_page)) = 0%nat.
Proof.
  split; [|by vm_compute].
  apply (rehydrates stale_page
           {| Parsed.accessToken := "at";
              Parsed.accessTokenExpiration := Iso 0;
              Parsed.refreshToken := "rt";
              Parsed.refreshTokenExpiration := Iso 10;
              Parsed.email := "ada@example.org";
              Parsed.firstName := "Ada";
              Parsed.lastName := "Lovelace" |}); by vm_compute.
Qed.

(** C9, counterexample: after the rehydration of an entry that is not JSON
    there is no session in memory and the entry is still stored. *)
Lemma corrupt_entry_out_of_sync :
  state (step CallInstall corrupt_page) = None
  ∧ localStorage (step CallInstall corrupt_page) !! localStorageKey
    = Some (NotJson "{oops")
  ∧ ¬ in_sync (step CallInstall corrupt_page).
Proof. split; [by vm_compute|]. split; by vm_compute. Qed.

(** C1, witness: on [stale_page] the scheduler refreshes at once; the
    request fails and the manager is logged out. *)
Lemma refresh_failure_witness :
  inflight (step CallInstall stale_page) !! 0%nat
    = Some (RefreshPost (catchLogout catchConsoleError))
  ∧ state (step (HttpSettles 0 (Err Serializable)) (step CallInstall stale_page)) = None
  ∧ localStorage (step (HttpSettles 0 (Err Serializable)) (step CallInstall stale_page))
      !! localStorageKey = None.
Proof.
  assert (inflight (step CallInstall stale_page) !! 0%nat
          = Some (RefreshPost (catchLogout catchConsoleError))) as Hid
    by (vm_compute; reflexivity).
  split; [exact Hid|].
  pose proof (refresh_failure [CallInstall]
                {[ localStorageKey :=
                     JSON_stringify (stateOfResponse (response 0 10)) ]} 5) as H.
  cbv zeta in H. destruct H as (H & _ & _).
  destruct (H 0%nat catchConsoleError Serializable Hid) as (H1 & H2 & _).
  split; [exact H1|exact H2].
Defined.

(** C2, witness: the text [null] on a fresh page. *)
Lemma rehydrate_unusable_storage_witness :
  state null_page = None
  ∧ localStorage null_page !! localStorageKey = Some JsonNull
  ∧ readStateFromStorage null_page = Return None
  ∧ state (install null_page) = None
  ∧ localStorage (install null_page) !! localStorageKey = None.
Proof.
  assert (state null_page = None) as Hs by reflexivity.
  assert (localStorage null_page !! localStorageKey = Some JsonNull) as Hst
    by (vm_compute; reflexivity).
  split; [exact Hs|]. split; [exact Hst|].
  destruct (rehydrate_unusable_storage null_page Hs) as (H & _).
  destruct (H Hst) as (H1 & H2 & H3 & _).
  split; [exact H1|]. split; [exact H2|exact H3].
Defined.

(** C3, witness: the login of [logged_in] arms the timeout 0 for 4 min. *)
Lemma scheduler_three_branches_witness :
  logs_in login_sent (HttpSettles 0 (Ok (response 300000 900000)))
    (stateOfResponse (response 300000 900000))
  ∧ refreshTimerId logged_in = Some 0%nat
  ∧ timers logged_in = {[ 0%nat := {| armedAt := 0; delay := 240000 |} ]}.
Proof.
  assert (logs_in login_sent (HttpSettles 0 (Ok (response 300000 900000)))
            (stateOfResponse (response 300000 900000))) as Hin
    by (apply (login_succeeds login_sent 0%nat (caller OpLogin));
        vm_compute; reflexivity).
  split; [exact Hin|].
  pose proof (scheduler_three_branches [CallLogin "ada@example.org" "pw"] ∅ 0
                (HttpSettles 0 (Ok (response 300000 900000)))
                (stateOfResponse (response 300000 900000))) as H.
  cbv zeta in H. destruct (H Hin) as (_ & _ & H3 & _).
  destruct H3 as (_ & H1 & H2 & _); [vm_compute; reflexivity..|].
  split; [exact H1|exact H2].
Defined.

(** C5, witness: [stale_page] holds a session whose refresh token is good. *)
Lemma rehydrate_stored_session_witness :
  state stale_page = None
  ∧ localStorage stale_page !! localStorageKey = Some (JsonObject stale_object)
  ∧ clock stale_page < refreshTokenExpiration (stateOfParsed stale_object)
  ∧ state (install stale_page) = Some (stateOfParsed stale_object).
Proof.
  assert (state stale_page = None) as Hs by reflexivity.
  assert (localStorage stale_page !! localStorageKey
          = Some (JsonObject stale_object)) as Hst by (vm_compute; reflexivity).
  assert (clock stale_page < refreshTokenExpiration (stateOfParsed stale_object))
    as Hr by (vm_compute; reflexivity).
  split; [exact Hs|]. split; [exact Hst|]. split; [exact Hr|].
  destruct (rehydrate_stored_session stale_page stale_object Hs Hst) as (_ & H).
  destruct (H Hr) as (H1 & _). exact H1.
Defined.

(** C6, witness: after the login of [logged_in] one timer is outstanding. *)
Lemma refresh_timer_discipline_witness :
  logs_in login_sent (HttpSettles 0 (Ok (response 300000 900000)))
    (stateOfResponse (response 300000 900000))
  ∧ size (timers logged_in) = 1%nat.
Proof.
  assert (logs_in login_sent (HttpSettles 0 (Ok (response 300000 900000)))
            (stateOfResponse (response 300000 900000))) as Hin
    by (apply (login_succeeds login_sent 0%nat (caller OpLogin));
        vm_compute; reflexivity).
  split; [exact Hin|].
  pose proof (refresh_timer_discipline [CallLogin "ada@example.org" "pw"] ∅ 0)
    as H.
  cbv zeta in H. destruct H as (_ & _ & H).
  apply (H _ _ Hin); vm_compute; reflexivity.
Defined.

(** C9, witness: the login of [logged_in]. *)
Lemma write_through_witness :
  mutation login_sent (HttpSettles 0 (Ok (response 300000 900000)))
  ∧ in_sync logged_in.
Proof.
  assert (mutation login_sent (HttpSettles 0 (Ok (response 300000 900000))))
    as Hm
    by (apply (login_success login_sent 0%nat (caller OpLogin));
        vm_compute; reflexivity).
  split; [exact Hm|].
  exact (write_through login_sent _ Hm).
Defined.

(** C10, witness: a fresh page. *)
Lemma logged_out_calls_do_nothing_witness :
  state fresh_page = None
  ∧ only_adds [Settled OpLogout Resolved] fresh_page (step CallLogout fresh_page)
  ∧ only_adds [Settled OpRefresh Resolved] fresh_page (step CallRefresh fresh_page).
Proof.
  split; [reflexivity|].
  exact (logged_out_calls_do_nothing fresh_page eq_refl).
Defined.

(** ** Further properties
    *** Who awaits the calls in flight *)

Lemma inflight_ok_boot store t0 : inflight_ok (boot store t0).
Proof. intros id p. simpl. by rewrite lookup_empty. Qed.

Lemma inflight_ok_shrink w w' :
  (∀ id p, inflight w' !! id = Some p → inflight w !! id = Some p) →
  nextRequest w' = nextRequest w →
  inflight_ok w → inflight_ok w'.
Proof. intros Hsub Hn H id p Hid. rewrite Hn. by apply H, Hsub. Qed.

Lemma inflight_ok_frame w w' :
  inflight w' = inflight w → nextRequest w' = nextRequest w →
  inflight_ok w → inflight_ok w'.
Proof. intros Hi. apply inflight_ok_shrink. by rewrite Hi. Qed.

Lemma inflight_ok_httpPost c url body p w :
  pending_ok p → inflight_ok w → inflight_ok (httpPost c url body p w).
Proof.
  intros Hp H id q. simpl.
  intros [[<- <-]|[Hne Hid]]%lookup_insert_Some.
  - split; [lia|done].
  - destruct (H id q Hid). split; [lia|done].
Qed.

Lemma inflight_ok_settle o k w : inflight_ok w → inflight_ok (settle o k w).
Proof.
  apply inflight_ok_frame; [apply settle_inflight|apply settle_nextRequest].
Qed.

Lemma inflight_ok_cancelRefreshTimer w :
  inflight_ok w → inflight_ok (cancelRefreshTimer w).
Proof.
  apply inflight_ok_frame;
    [apply cancelRefreshTimer_inflight|apply cancelRefreshTimer_nextRequest].
Qed.

Lemma inflight_ok_refresh k w :
  refresh_handler k → inflight_ok w → inflight_ok (refresh k w).
Proof.
  intros Hk H. unfold refresh.
  destruct (state w); [by apply inflight_ok_httpPost|by apply inflight_ok_settle].
Qed.

Lemma inflight_ok_scheduleAutoRefresh k w :
  scheduler_handler k → inflight_ok w → inflight_ok (scheduleAutoRefresh k w).
Proof.
  intros Hk H.
  destruct (scheduleAutoRefresh_cases w)
    as [Hs|[(s & Hs & Hr)|[(s & Hs & Hr & Ha)|(s & Hs & Hr & Ha)]]].
  - rewrite scheduleAutoRefresh_absent by done.
    apply inflight_ok_settle.
    by eapply inflight_ok_frame; [..|apply inflight_ok_cancelRefreshTimer].
  - rewrite (scheduleAutoRefresh_expired k w s) by done.
    apply inflight_ok_settle.
    by eapply inflight_ok_frame; [..|apply inflight_ok_cancelRefreshTimer].
  - rewrite (scheduleAutoRefresh_stale k w s) by done.
    apply inflight_ok_httpPost; [by constructor|].
    by apply inflight_ok_cancelRefreshTimer.
  - rewrite (scheduleAutoRefresh_fresh k w s) by done. cbv zeta.
    apply inflight_ok_settle.
    by eapply inflight_ok_frame; [..|apply inflight_ok_cancelRefreshTimer].
Qed.

Lemma inflight_ok_clearTokens k w :
  inflight_ok w → inflight_ok (clearTokens k w).
Proof.
  intros H. unfold clearTokens. apply inflight_ok_settle.
  by eapply inflight_ok_frame; [..|apply inflight_ok_cancelRefreshTimer].
Qed.

Lemma inflight_ok_resume p r w :
  pending_ok p → inflight_ok w → inflight_ok (resume p r w).
Proof.
  intros Hp H. destruct p as [k|k|k|k], r as [data|[]]; unfold resume;
    simpl in Hp.
  - subst. apply inflight_ok_scheduleAutoRefresh; [constructor|].
    by eapply inflight_ok_frame; [..|exact H].
  - by apply inflight_ok_settle.
  - by apply inflight_ok_settle.
  - apply inflight_ok_scheduleAutoRefresh; [by constructor|].
    by eapply inflight_ok_frame; [..|exact H].
  - by apply inflight_ok_settle.
  - by apply inflight_ok_settle.
  - by apply inflight_ok_clearTokens.
  - apply inflight_ok_clearTokens. by eapply inflight_ok_frame; [..|exact H].
  - by apply inflight_ok_settle.
  - by apply inflight_ok_settle.
  - by apply inflight_ok_settle.
  - by apply inflight_ok_settle.
Qed.

Lemma inflight_ok_install w : inflight_ok w → inflight_ok (install w).
Proof.
  intros H. unfold install.
  destruct (readStateFromStorage w) as [[st|]|e].
  - eapply inflight_ok_frame; [reflexivity..|].
    apply inflight_ok_scheduleAutoRefresh; [constructor|].
    by eapply inflight_ok_frame; [..|exact H].
  - by eapply inflight_ok_frame; [..|exact H].
  - by eapply inflight_ok_frame; [..|exact H].
Qed.

Lemma inflight_ok_step e w : inflight_ok w → inflight_ok (step e w).
Proof.
  intros H. destruct e; cbn [step].
  - by apply inflight_ok_install.
  - by apply inflight_ok_httpPost.
  - apply inflight_ok_refresh; [constructor|done].
  - unfold logout. destruct (state w); [|by apply inflight_ok_settle].
    by apply inflight_ok_httpPost.
  - by apply inflight_ok_clearTokens.
  - destruct (inflight w !! id) as [p|] eqn:Hid; [|done].
    apply inflight_ok_resume; [by destruct (H id p Hid)|].
    eapply inflight_ok_shrink; [| |exact H]; simpl; [|done].
    intros id' p'. by intros [_ ?]%lookup_delete_Some.
  - destruct (timers w !! id) as [t|]; [|done].
    destruct (due t <=? clock w); [|done].
    unfold refreshTimerCallback. apply inflight_ok_refresh; [constructor|].
    by eapply inflight_ok_frame; [..|exact H].
  - by eapply inflight_ok_frame; [..|exact H].
  - by apply inflight_ok_httpPost.
Qed.

Lemma inflight_ok_run es w : inflight_ok w → inflight_ok (run es w).
Proof.
  revert w; induction es as [|e es IH]; intros w H; [done|].
  simpl. apply IH. by apply inflight_ok_step.
Qed.

(** *** Which promises are ever rejected *)

Lemma benign_emit U e w :
  benign U e →
  Forall (benign U) (trace w) → Forall (benign U) (trace (emit e w)).
Proof.
  intros He H. simpl. apply Forall_app. split; [done|by apply Forall_singleton].
Qed.

Lemma benign_frame U w w' :
  trace w' = trace w →
  Forall (benign U) (trace w) → Forall (benign U) (trace w').
Proof. by intros ->. Qed.

Lemma benign_other U e :
  (∀ op o, e ≠ Settled op o) → benign U e.
Proof. intros H op ->. by destruct (H op Rejected). Qed.

Lemma benign_Resolved U op : benign U (Settled op Resolved).
Proof. by intros op' [=]. Qed.

Lemma benign_settle_Resolved U k w :
  Forall (benign U) (trace w) →
  Forall (benign U) (trace (settle Resolved k w)).
Proof.
  revert w; induction k; intros w H; simpl.
  - apply benign_emit; [apply benign_Resolved|done].
  - done.
  - by apply IHk.
  - by apply IHk.
Qed.

(** The promises a rejection can reach: those of [login], [refresh] and
    [register], whose only handler is their caller, or a handler of
    [refresh]. *)
Lemma benign_settle_Rejected U k w :
  refresh_handler k ∨ k = caller OpLogin ∨ k = caller OpRegister
  ∨ (k = caller OpLogout ∧ U) →
  Forall (benign U) (trace w) →
  Forall (benign U) (trace (settle Rejected k w)).
Proof.
  intros [Hk|[->|[->|[-> HU]]]] H.
  - destruct Hk; simpl.
    + apply benign_emit; [|done]. intros op [= <-]. auto.
    + apply benign_emit; [|done]. by apply benign_other.
    + apply benign_settle_Resolved. simpl.
      apply Forall_app. split; [done|].
      apply Forall_singleton. by apply benign_other.
  - simpl. apply benign_emit; [|done]. intros op [= <-]. auto.
  - simpl. apply benign_emit; [|done]. intros op [= <-]. auto.
  - simpl. apply benign_emit; [|done]. intros op [= <-]. auto.
Qed.

Lemma benign_cancelRefreshTimer U w :
  Forall (benign U) (trace w) →
  Forall (benign U) (trace (cancelRefreshTimer w)).
Proof.
  intros H. rewrite cancelRefreshTimer_trace. apply Forall_app. split; [done|].
  destruct (refreshTimerId w); [|done].
  apply Forall_singleton. by apply benign_other.
Qed.

Lemma benign_httpPost U c url body p w :
  Forall (benign U) (trace w) →
  Forall (benign U) (trace (httpPost c url body p w)).
Proof.
  intros H. simpl. apply Forall_app. split; [done|].
  apply Forall_singleton. by apply benign_other.
Qed.

Lemma benign_refresh U k w :
  Forall (benign U) (trace w) → Forall (benign U) (trace (refresh k w)).
Proof.
  intros H. unfold refresh.
  destruct (state w); [by apply benign_httpPost|by apply benign_settle_Resolved].
Qed.

Lemma benign_scheduleAutoRefresh U k w :
  Forall (benign U) (trace w) →
  Forall (benign U) (trace (scheduleAutoRefresh k w)).
Proof.
  intros H.
  destruct (scheduleAutoRefresh_cases w)
    as [Hs|[(s & Hs & Hr)|[(s & Hs & Hr & Ha)|(s & Hs & Hr & Ha)]]].
  - rewrite scheduleAutoRefresh_absent by done.
    apply benign_settle_Resolved, benign_emit; [by apply benign_other|].
    by apply benign_cancelRefreshTimer.
  - rewrite (scheduleAutoRefresh_expired k w s) by done.
    apply benign_settle_Resolved.
    by eapply benign_frame; [|apply benign_cancelRefreshTimer].
  - rewrite (scheduleAutoRefresh_stale k w s) by done.
    by apply benign_httpPost, benign_cancelRefreshTimer.
  - rewrite (scheduleAutoRefresh_fresh k w s) by done. cbv zeta.
    apply benign_settle_Resolved. simpl.
    apply Forall_app. split; [|apply Forall_singleton; by apply benign_other].
    apply Forall_app. split; [|apply Forall_singleton; by apply benign_other].
    by apply benign_cancelRefreshTimer.
Qed.

Lemma benign_clearTokens U k w :
  Forall (benign U) (trace w) → Forall (benign U) (trace (clearTokens k w)).
Proof.
  intros H. unfold clearTokens.
  apply benign_settle_Resolved, benign_emit; [by apply benign_other|].
  by eapply benign_frame; [|apply benign_cancelRefreshTimer].
Qed.

Lemma benign_resume U p r w :
  pending_ok p →
  (r = Err Unserializable → U) →
  Forall (benign U) (trace w) → Forall (benign U) (trace (resume p r w)).
Proof.
  intros Hp HU H. destruct p as [k|k|k|k], r as [data|[]]; unfold resume;
    simpl in Hp.
  - by apply benign_scheduleAutoRefresh.
  - apply benign_settle_Rejected; auto.
  - apply benign_settle_Rejected; auto.
  - by apply benign_scheduleAutoRefresh.
  - apply benign_settle_Rejected; auto.
  - apply benign_settle_Rejected; auto.
  - by apply benign_clearTokens.
  - apply benign_clearTokens, benign_emit; [by apply benign_other|done].
  - apply benign_settle_Rejected; [|done]. do 3 right. auto.
  - by apply benign_settle_Resolved.
  - apply benign_settle_Rejected; auto.
  - apply benign_settle_Rejected; auto.
Qed.

Lemma benign_step U e w :
  inflight_ok w →
  (∀ id, e = HttpSettles id (Err Unserializable) → U) →
  Forall (benign U) (trace w) → Forall (benign U) (trace (step e w)).
Proof.
  intros Hok HU H. destruct e; cbn [step].
  - unfold install. destruct (readStateFromStorage w) as [[st|]|err].
    + apply benign_emit; [by apply benign_other|].
      by apply benign_scheduleAutoRefresh.
    + apply benign_emit; [by apply benign_other|done].
    + apply benign_emit; [by apply benign_other|done].
  - by apply benign_httpPost.
  - by apply benign_refresh.
  - unfold logout.
    destruct (state w); [by apply benign_httpPost|by apply benign_settle_Resolved].
  - by apply benign_clearTokens.
  - destruct (inflight w !! id) as [p|] eqn:Hid; [|done].
    apply benign_resume; [by destruct (Hok id p Hid)| |done].
    intros ->. by apply (HU id).
  - destruct (timers w !! id) as [t|]; [|done].
    destruct (due t <=? clock w); [|done].
    unfold refreshTimerCallback.
    apply benign_refresh, benign_emit; [by apply benign_other|done].
  - done.
  - by apply benign_httpPost.
Qed.

Lemma benign_run U es w :
  inflight_ok w →
  (∀ id, HttpSettles id (Err Unserializable) ∈ es → U) →
  Forall (benign U) (trace w) → Forall (benign U) (trace (run es w)).
Proof.
  revert w; induction es as [|e es IH]; intros w Hok HU H; [done|].
  simpl. apply IH.
  - by apply inflight_ok_step.
  - intros id Hin. apply (HU id). by apply list_elem_of_further.
  - apply benign_step; [done| |done].
    intros id ->. apply (HU id). apply list_elem_of_here.
Qed.

(** X1. From a fresh page on, whatever the events, of the promises of the
    manager's operations one of [clearTokens()] is never rejected, and one
    of [logout()] is rejected only in a run in which a request was rejected
    with a value that [JSON.stringify] cannot serialize (line 163); every
    other rejected promise is one of [login()], [refresh()] or
    [register()]. *)
Theorem which_promises_reject (es : list Event)
    (store : gmap string StoredText) (t0 : Z) (op : Operation) :
  Settled op Rejected ∈ trace (run es (boot store t0)) →
  op = OpLogin ∨ op = OpRefresh ∨ op = OpRegister
  ∨ (op = OpLogout ∧ ∃ id, HttpSettles id (Err Unserializable) ∈ es).
Proof.
  intros Hin.
  assert (Forall (benign (∃ id, HttpSettles id (Err Unserializable) ∈ es))
            (trace (run es (boot store t0)))) as H.
  { apply benign_run; [apply inflight_ok_boot|eauto|by apply Forall_nil]. }
  rewrite Forall_forall in H. by apply (H _ Hin).
Qed.

(** *** The other keys of [localStorage] *)

Lemma same_elsewhere_refl m : same_elsewhere m m.
Proof. by intros key _. Qed.

Lemma same_elsewhere_trans m1 m2 m3 :
  same_elsewhere m1 m2 → same_elsewhere m2 m3 → same_elsewhere m1 m3.
Proof. intros H12 H23 key Hne. by rewrite H23, H12. Qed.

Lemma same_elsewhere_eq w w' :
  localStorage w' = localStorage w →
  same_elsewhere (localStorage w) (localStorage w').
Proof. intros ->. apply same_elsewhere_refl. Qed.

Lemma same_elsewhere_remove w :
  same_elsewhere (localStorage w) (localStorage (removeStateFromStorage w)).
Proof. intros key Hne. simpl. by rewrite lookup_delete_ne. Qed.

Lemma same_elsewhere_write s w :
  same_elsewhere (localStorage w) (localStorage (writeStateToStorage s w)).
Proof. intros key Hne. simpl. by rewrite lookup_insert_ne. Qed.

Lemma same_elsewhere_settle o k w :
  same_elsewhere (localStorage w) (localStorage (settle o k w)).
Proof.
  revert o w; induction k; intros o w; simpl.
  - apply same_elsewhere_refl.
  - destruct o; apply same_elsewhere_refl.
  - destruct o; [apply IHk|].
    eapply same_elsewhere_trans; [|apply IHk].
    intros key Hne. simpl. by rewrite lookup_delete_ne.
  - apply IHk.
Qed.

Lemma same_elsewhere_scheduleAutoRefresh k w :
  same_elsewhere (localStorage w) (localStorage (scheduleAutoRefresh k w)).
Proof.
  destruct (scheduleAutoRefresh_cases w)
    as [Hs|[(s & Hs & Hr)|[(s & Hs & Hr & Ha)|(s & Hs & Hr & Ha)]]].
  - rewrite scheduleAutoRefresh_absent by done.
    eapply same_elsewhere_trans; [|apply same_elsewhere_settle].
    apply same_elsewhere_eq. simpl. apply cancelRefreshTimer_localStorage.
  - rewrite (scheduleAutoRefresh_expired k w s) by done.
    eapply same_elsewhere_trans; [|apply same_elsewhere_settle].
    intros key Hne. simpl.
    by rewrite lookup_delete_ne, cancelRefreshTimer_localStorage.
  - rewrite (scheduleAutoRefresh_stale k w s) by done.
    apply same_elsewhere_eq. simpl. apply cancelRefreshTimer_localStorage.
  - rewrite (scheduleAutoRefresh_fresh k w s) by done. cbv zeta.
    eapply same_elsewhere_trans; [|apply same_elsewhere_settle].
    apply same_elsewhere_eq. simpl. apply cancelRefreshTimer_localStorage.
Qed.

Lemma same_elsewhere_clearTokens k w :
  same_elsewhere (localStorage w) (localStorage (clearTokens k w)).
Proof.
  unfold clearTokens.
  eapply same_elsewhere_trans; [|apply same_elsewhere_settle].
  intros key Hne. simpl.
  by rewrite lookup_delete_ne, cancelRefreshTimer_localStorage.
Qed.

Lemma same_elsewhere_refresh k w :
  same_elsewhere (localStorage w) (localStorage (refresh k w)).
Proof.
  unfold refresh.
  destruct (state w); [apply same_elsewhere_refl|apply same_elsewhere_settle].
Qed.

Lemma same_elsewhere_step e w :
  same_elsewhere (localStorage w) (localStorage (step e w)).
Proof.
  destruct e; cbn [step].
  - unfold install. destruct (readStateFromStorage w) as [[st|]|err].
    + cbn [emit localStorage].
      apply (same_elsewhere_scheduleAutoRefresh _ (set_state (Some st) w)).
    + apply same_elsewhere_remove.
    + apply same_elsewhere_refl.
  - apply same_elsewhere_refl.
  - apply same_elsewhere_refresh.
  - unfold logout.
    destruct (state w); [apply same_elsewhere_refl|apply same_elsewhere_settle].
  - apply same_elsewhere_clearTokens.
  - destruct (inflight w !! id) as [[k|k|k|k]|];
      [| | | |apply same_elsewhere_refl];
      destruct r as [data|[]]; cbn [resume].
    + eapply same_elsewhere_trans; [|apply same_elsewhere_scheduleAutoRefresh].
      apply (same_elsewhere_write _ (set_state _ (set_inflight _ w))).
    + apply (same_elsewhere_settle _ _ (set_inflight _ w)).
    + apply (same_elsewhere_settle _ _ (set_inflight _ w)).
    + eapply same_elsewhere_trans; [|apply same_elsewhere_scheduleAutoRefresh].
      apply (same_elsewhere_write _ (set_state _ (set_inflight _ w))).
    + apply (same_elsewhere_settle _ _ (set_inflight _ w)).
    + apply (same_elsewhere_settle _ _ (set_inflight _ w)).
    + apply (same_elsewhere_clearTokens _ (set_inflight _ w)).
    + apply (same_elsewhere_clearTokens _ (emit _ (set_inflight _ w))).
    + apply (same_elsewhere_settle _ _ (set_inflight _ w)).
    + apply (same_elsewhere_settle _ _ (set_inflight _ w)).
    + apply (same_elsewhere_settle _ _ (set_inflight _ w)).
    + apply (same_elsewhere_settle _ _ (set_inflight _ w)).
  - destruct (timers w !! id) as [t|]; [|apply same_elsewhere_refl].
    destruct (due t <=? clock w); [|apply same_elsewhere_refl].
    unfold refreshTimerCallback.
    apply (same_elsewhere_refresh _ (emit _ (set_timers _ w))).
  - apply same_elsewhere_refl.
  - apply same_elsewhere_refl.
Qed.

(** X2. No sequence of operations and events changes a [localStorage] key
    other than "auth": every other entry is after the run what it was
    before. *)
Theorem other_storage_keys_untouched (es : list Event) (w : World) (key : string) :
  key ≠ localStorageKey →
  localStorage (run es w) !! key = localStorage w !! key.
Proof.
  revert w; induction es as [|e es IH]; intros w Hne; [done|].
  simpl. rewrite IH by done. by apply same_elsewhere_step.
Qed.

(** *** Write-through in every interleaving *)

Lemma in_sync_refresh k w : in_sync w → in_sync (refresh k w).
Proof.
  intros H. unfold refresh. destruct (state w) eqn:Hs; [|by apply in_sync_settle].
  by eapply in_sync_frame; [..|exact H].
Qed.

Lemma in_sync_resume p r w : in_sync w → in_sync (resume p r w).
Proof.
  intros H. destruct p as [k|k|k|k], r as [data|[]]; unfold resume.
  - apply in_sync_scheduleAutoRefresh, in_sync_written.
  - by apply in_sync_settle.
  - by apply in_sync_settle.
  - apply in_sync_scheduleAutoRefresh, in_sync_written.
  - by apply in_sync_settle.
  - by apply in_sync_settle.
  - apply in_sync_clearTokens.
  - apply in_sync_clearTokens.
  - by apply in_sync_settle.
  - by apply in_sync_settle.
  - by apply in_sync_settle.
  - by apply in_sync_settle.
Qed.

Lemma in_sync_step e w : e ≠ CallInstall → in_sync w → in_sync (step e w).
Proof.
  intros Hne H. destruct e; cbn [step]; [done|..].
  - by eapply in_sync_frame; [..|exact H].
  - by apply in_sync_refresh.
  - unfold logout. destruct (state w) eqn:Hs; [|by apply in_sync_settle].
    by eapply in_sync_frame; [..|exact H].
  - apply in_sync_clearTokens.
  - destruct (inflight w !! id); [|done].
    apply in_sync_resume. by eapply in_sync_frame; [..|exact H].
  - destruct (timers w !! id) as [t|]; [|done].
    destruct (due t <=? clock w); [|done].
    unfold refreshTimerCallback. apply in_sync_refresh.
    by eapply in_sync_frame; [..|exact H].
  - by eapply in_sync_frame; [..|exact H].
  - by eapply in_sync_frame; [..|exact H].
Qed.

(** X3. Write-through is an invariant of every interleaving: from a world
    in which memory and storage agree, any sequence of calls, responses,
    timers and delays that does not run [install] again ends in a world in
    which they agree. *)
Theorem write_through_invariant (es : list Event) (w : World) :
  in_sync w → CallInstall ∉ es → in_sync (run es w).
Proof.
  revert w; induction es as [|e es IH]; intros w H Hnot; [done|].
  apply not_elem_of_cons in Hnot as [Hne Hnot].
  simpl. apply IH; [|done]. by apply in_sync_step.
Qed.

(** *** Storage round trip and reload *)

(** X4. Reading back what [writeStateToStorage] wrote never throws: it
    gives the session that was written while its refresh token is
    unexpired, and [null] once the refresh token expiration is at or before
    the current time; after [removeStateFromStorage] it gives [null]. *)
Theorem storage_round_trip (s : State) (w : World) :
  readStateFromStorage (writeStateToStorage s w)
  = Return (if refreshTokenExpiration s <=? clock w then None else Some s)
  ∧ readStateFromStorage (removeStateFromStorage w) = Return None.
Proof.
  split.
  - apply (readStateFromStorage_stringify (writeStateToStorage s w)). simpl.
    apply lookup_insert_eq.
  - unfold readStateFromStorage. simpl. by rewrite lookup_delete_eq.
Qed.

(** X5. A reload keeps the session: when memory and storage agree, a fresh
    page started at time [t] on the same storage rehydrates to the same
    session if its refresh token is unexpired at [t], and to no session
    (with the entry removed) if it has expired; with no session the fresh
    page stays logged out. *)
Theorem session_survives_reload (w : World) (t : Z) :
  in_sync w →
  (∀ s, state w = Some s → t < refreshTokenExpiration s →
     state (install (boot (localStorage w) t)) = Some s)
  ∧ (∀ s, state w = Some s → refreshTokenExpiration s ≤ t →
       state (install (boot (localStorage w) t)) = None
       ∧ localStorage (install (boot (localStorage w) t)) !! localStorageKey
         = None)
  ∧ (state w = None → state (install (boot (localStorage w) t)) = None).
Proof.
  intros Hsync. unfold in_sync in Hsync.
  set (page := boot (localStorage w) t).
  pose proof (install_read page) as Hread.
  split; [|split].
  - intros s Hs Hr. rewrite Hs in Hsync.
    rewrite (readStateFromStorage_stringify page s) in Hread by done.
    change (clock page) with t in Hread.
    rewrite (proj2 (Z.leb_gt _ _) Hr) in Hread. by destruct Hread.
  - intros s Hs Hr. rewrite Hs in Hsync.
    rewrite (readStateFromStorage_stringify page s) in Hread by done.
    change (clock page) with t in Hread.
    rewrite (proj2 (Z.leb_le _ _) Hr) in Hread.
    destruct Hread as (-> & -> & _). split; [done|apply lookup_delete_eq].
  - intros Hs. rewrite Hs in Hsync.
    assert (readStateFromStorage page = Return None) as Hnone
      by (unfold readStateFromStorage, page; simpl; by rewrite Hsync).
    rewrite Hnone in Hread. by destruct Hread as (-> & _).
Qed.

(** *** When the refresh is due *)

Lemma toLong_in_range z :
  -2147483648 ≤ z ≤ 2147483647 → toLong z = z.
Proof. intros H. unfold toLong. rewrite Z.mod_small by lia. lia. Qed.

Lemma toLong_wraps z :
  2147483648 ≤ z < 4294967296 → toLong z = z - 4294967296.
Proof.
  intros H. unfold toLong.
  rewrite <- (Z.mod_unique (z + 2147483648) 4294967296 1 (z - 2147483648));
    lia.
Qed.

(** X6. After a transition into [LoggedIn] with both tokens unexpired the
    armed timeout carries the delay [(accessTokenExpiration - 1 min) - now].
    When that delay fits the 32-bit delay of [window.setTimeout] (at most
    2^31 - 1 ms, about 24.8 days) the timeout is due one minute before the
    access token expires, or at once when less than a minute is left: never
    before the current time and always strictly before the access token
    expiration.  A delay from 2^31 up to 2^32 - 1 ms is negative as a
    32-bit delay, and the timeout is due at once. *)
Theorem refresh_due_before_expiry (es : list Event)
    (store : gmap string StoredText) (t0 : Z) (e : Event) (s : State) :
  let w := run es (boot store t0) in
  logs_in w e s →
  clock w < refreshTokenExpiration s →
  clock w < accessTokenExpiration s →
  ∃ t, timers (step e w) = {[ nextTimer w := t ]}
       ∧ delay t = accessTokenExpiration s - 60000 - clock w
       ∧ (delay t ≤ 2147483647 →
          due t = Z.max (clock w) (accessTokenExpiration s - 60000)
          ∧ clock w ≤ due t < accessTokenExpiration s)
       ∧ (2147483648 ≤ delay t < 4294967296 → due t = clock w).
Proof.
  intros w Hin Hr Ha.
  assert (timers_ok w) as Hok by apply timers_ok_run, timers_ok_boot.
  destruct (logs_in_scheduler w e s Hin)
    as (k & w0 & tl & Hs & Hc & Ht & Hid & Hn & _ & _ & _ & Honly).
  destruct Honly as (_ & _ & _ & _ & -> & _).
  assert (timers_ok w0) as Hok0 by (by eapply timers_ok_frame; [..|exact Hok]).
  rewrite (scheduleAutoRefresh_fresh k w0 s) by (done || lia). cbv zeta.
  rewrite settle_timers, setTimeout_after_cancel by apply Hok0.
  rewrite Hn, Hc. eexists. split; [done|]. split; [done|].
  unfold due. cbn [armedAt delay]. split.
  - intros Hfit. rewrite toLong_in_range by lia. lia.
  - intros Hbig. rewrite toLong_wraps by lia. lia.
Qed.

(** *** A refresh started by the timeout *)

Lemma tracked_timer_alone w id t :
  timer_tracked w → timers w !! id = Some t → delete id (timers w) = ∅.
Proof.
  intros Htr Hid. apply map_empty. intros id'.
  destruct (decide (id = id')) as [<-|Hne]; [apply lookup_delete_eq|].
  rewrite lookup_delete_ne by done.
  destruct (timers w !! id') as [t'|] eqn:Hid'; [|done].
  apply Htr in Hid, Hid'. congruence.
Qed.

(** X7. When the due timeout runs while logged in it sends one refresh
    request and no timer is left pending; if that request fails, whatever
    the rejection, the failure is only written to the console: the session and its stored copy
    stay, no request is sent again and no timer is armed, so no further
    automatic refresh is scheduled. *)
Theorem timer_refresh_failure_stops_refreshing (es : list Event)
    (store : gmap string StoredText) (t0 : Z) (id : nat) (t : Timeout)
    (s : State) (v : Rejection) :
  let w := run es (boot store t0) in
  let w1 := step (TimerFires id) w in
  let w2 := step (HttpSettles (nextRequest w) (Err v)) w1 in
  timers w !! id = Some t →
  due t ≤ clock w →
  state w = Some s →
  timers w1 = ∅
  ∧ trace w1 =
    trace w ++ [Console RefreshingAccessToken;
                HttpPost (nextRequest w) withRefreshToken "/auth/refresh" []]
  ∧ state w2 = Some s
  ∧ localStorage w2 = localStorage w
  ∧ timers w2 = ∅
  ∧ inflight w2 = delete (nextRequest w) (inflight w)
  ∧ nextRequest w2 = S (nextRequest w)
  ∧ trace w2 = trace w1 ++ [Console UncaughtRejection].
Proof.
  intros w w1 w2 Hid Hdue Hs.
  assert (timers_ok w) as [Htr _] by apply timers_ok_run, timers_ok_boot.
  assert (w1 = httpPost withRefreshToken "/auth/refresh" []
                 (RefreshPost catchConsoleError)
                 (emit (Console RefreshingAccessToken)
                    (set_timers (delete id (timers w)) w))) as Hw1.
  { unfold w1. cbn [step]. rewrite Hid, (proj2 (Z.leb_le _ _) Hdue).
    unfold refreshTimerCallback, refresh. cbn [emit set_timers state].
    by rewrite Hs. }
  assert (w2 = emit (Console UncaughtRejection)
                 (set_inflight (delete (nextRequest w) (inflight w1)) w1))
    as Hw2.
  { unfold w2. cbn [step]. rewrite Hw1 at 1. cbn [httpPost emit set_timers
      inflight nextRequest]. by rewrite lookup_insert_eq. }
  rewrite Hw2, Hw1. cbn. rewrite (tracked_timer_alone w id t) by done.
  rewrite delete_insert_eq, <- app_assoc. by repeat split.
Qed.

(** *** Responses that arrive after the session changed *)

(** X8. [refresh()] does not look at the session again after its request:
    whatever the session is when a successful refresh response arrives, and
    so also when the manager has been logged out in the meantime, the
    manager is logged in with the response's session (refresh token
    unexpired) and stores it. *)
Theorem refresh_response_after_logout (w : World) (id : nat) (k : Handler)
    (data : Api.LoginResponse) :
  inflight w !! id = Some (RefreshPost k) →
  clock w < refreshTokenExpiration (stateOfResponse data) →
  state (step (HttpSettles id (Ok data)) w) = Some (stateOfResponse data)
  ∧ localStorage (step (HttpSettles id (Ok data)) w) !! localStorageKey
    = Some (JSON_stringify (stateOfResponse data)).
Proof.
  intros Hid Hr. cbn [step]. rewrite Hid. cbn [resume].
  set (w0 := writeStateToStorage (stateOfResponse data)
               (set_state (Some (stateOfResponse data))
                  (set_inflight (delete id (inflight w)) w))).
  destruct (scheduleAutoRefresh_keeps_session (awaited OpRefresh k) w0
              (stateOfResponse data)) as (-> & -> & _); [done..|].
  split; [done|]. simpl. apply lookup_insert_eq.
Qed.

(** X9. In every reachable world [clearTokens()], logged in or not, leaves
    no session, no stored entry and no pending timer, pushes the Login route
    and resolves; it does not cancel the network calls in flight. *)
Theorem clearTokens_always_clears (es : list Event)
    (store : gmap string StoredText) (t0 : Z) :
  let w := run es (boot store t0) in
  let w' := step CallClearTokens w in
  state w' = None
  ∧ localStorage w' !! localStorageKey = None
  ∧ timers w' = ∅
  ∧ inflight w' = inflight w
  ∧ trace w' =
    trace w
    ++ match refreshTimerId w with
       | Some tid => [ClearTimeout tid]
       | None => []
       end
    ++ [RouterPush Login; Settled OpClearTokens Resolved].
Proof.
  intros w w'.
  assert (timers_ok w) as [Htr _] by apply timers_ok_run, timers_ok_boot.
  unfold w'. cbn [step]. unfold clearTokens. cbn [settle].
  cbn [emit set_state removeStateFromStorage set_localStorage
         state localStorage timers inflight trace].
  rewrite cancelRefreshTimer_localStorage, cancelRefreshTimer_inflight,
    cancelRefreshTimer_trace, cancelRefreshTimer_none by done.
  rewrite lookup_delete_eq, <- !app_assoc. by repeat split.
Qed.

(** *** The read accessors *)

Lemma accessors_of_session w s :
  state w = Some s →
  getAccessToken w = Some (accessToken s)
  ∧ getRefreshToken w = Some (refreshToken s)
  ∧ getUserInfo w =
    Some {| UserInfo.email := email s;
            UserInfo.firstName := firstName s;
            UserInfo.lastName := lastName s;
            UserInfo.name :=
              String.append (firstName s) (String.append " " (lastName s)) |}.
Proof. unfold getAccessToken, getRefreshToken, getUserInfo. by intros ->. Qed.

Lemma accessors_of_no_session w :
  state w = None →
  getAccessToken w = None ∧ getRefreshToken w = None ∧ getUserInfo w = None.
Proof. unfold getAccessToken, getRefreshToken, getUserInfo. by intros ->. Qed.

(** X10. The accessors follow the transitions.  Right after a login,
    refresh or rehydration with an unexpired refresh token they yield the
    tokens and the identity of that session, the name being the first name,
    a space and the last name.  All three yield [null] right after a login
    or refresh response whose refresh token has expired, after the
    rehydration on a fresh page of a stored session whose refresh token has
    expired, and after a logout that goes on to [clearTokens].  After a
    logout whose request is rejected with a value the message of line 163
    cannot be built from they yield what they yielded before. *)
Theorem accessors_follow_transitions (w : World) :
  (∀ e s, logs_in w e s → clock w < refreshTokenExpiration s →
     getAccessToken (step e w) = Some (accessToken s)
     ∧ getRefreshToken (step e w) = Some (refreshToken s)
     ∧ getUserInfo (step e w) =
       Some {| UserInfo.email := email s;
               UserInfo.firstName := firstName s;
               UserInfo.lastName := lastName s;
               UserInfo.name :=
                 String.append (firstName s) (String.append " " (lastName s)) |})
  ∧ (∀ id p data,
       inflight w !! id = Some p →
       (∃ k, p = LoginPost k ∨ p = RefreshPost k) →
       refreshTokenExpiration (stateOfResponse data) ≤ clock w →
       getAccessToken (step (HttpSettles id (Ok data)) w) = None
       ∧ getRefreshToken (step (HttpSettles id (Ok data)) w) = None
       ∧ getUserInfo (step (HttpSettles id (Ok data)) w) = None)
  ∧ (∀ o, state w = None →
       localStorage w !! localStorageKey = Some (JsonObject o) →
       refreshTokenExpiration (stateOfParsed o) ≤ clock w →
       getAccessToken (step CallInstall w) = None
       ∧ getRefreshToken (step CallInstall w) = None
       ∧ getUserInfo (step CallInstall w) = None)
  ∧ (∀ id k r, inflight w !! id = Some (LogoutPost k) →
       reaches_clearTokens r →
       getAccessToken (step (HttpSettles id r) w) = None
       ∧ getRefreshToken (step (HttpSettles id r) w) = None
       ∧ getUserInfo (step (HttpSettles id r) w) = None)
  ∧ (∀ id, inflight w !! id = Some (LogoutPost (caller OpLogout)) →
       getAccessToken (step (HttpSettles id (Err Unserializable)) w)
       = getAccessToken w
       ∧ getRefreshToken (step (HttpSettles id (Err Unserializable)) w)
         = getRefreshToken w
       ∧ getUserInfo (step (HttpSettles id (Err Unserializable)) w)
         = getUserInfo w).
Proof.
  split; [|split; [|split; [|split]]].
  - intros e s Hin Hr. apply accessors_of_session.
    destruct (logs_in_scheduler w e s Hin)
      as (k & w0 & tl & Hs & Hc & _ & _ & _ & _ & _ & _ & Honly).
    destruct Honly as (-> & _).
    by apply scheduleAutoRefresh_keeps_session; [|lia].
  - intros id p data Hid [k Hp] Hr. apply accessors_of_no_session.
    assert (logs_in w (HttpSettles id (Ok data)) (stateOfResponse data))
      as Hin.
    { destruct Hp as [-> | ->];
        [by eapply login_succeeds|by eapply refresh_succeeds]. }
    destruct (logs_in_scheduler w _ _ Hin)
      as (k' & w0 & tl & Hs & Hc & _ & _ & _ & _ & _ & _ & Honly).
    destruct Honly as (-> & _).
    by apply (scheduleAutoRefresh_drops_session k' w0 (stateOfResponse data));
      [|lia].
  - intros o Hs Hst Hr. apply accessors_of_no_session.
    cbn [step]. pose proof (install_read w) as H.
    rewrite (readStateFromStorage_object w o Hst) in H.
    rewrite (proj2 (Z.leb_le _ _) Hr) in H.
    destruct H as (-> & _). exact Hs.
  - intros id k r Hid Hr. apply accessors_of_no_session.
    cbn [step]. rewrite Hid.
    destruct r as [data|[]]; cbn [resume]; [| |by destruct Hr];
      unfold clearTokens; by rewrite settle_Resolved_state.
  - intros id Hid. cbn [step]. rewrite Hid. cbn [resume settle].
    by unfold getAccessToken, getRefreshToken, getUserInfo.
Qed.

(** *** Registration *)

(** X11. [register()] never logs in.  In every reachable world the call
    sends one unauthenticated POST to "/register" with the fields email,
    first_name, last_name and password under a request id not in flight, and
    changes nothing else.  Whenever the response to a registration arrives,
    whatever has happened since the call, it only settles the promise of
    [register()], resolved on success and rejected on failure: the session,
    the stored entry, the timers and the other calls in flight stay as they
    were, nothing is sent, and the guard decides as before. *)
Theorem register_never_logs_in (es : list Event)
    (store : gmap string StoredText) (t0 : Z) :
  let w := run es (boot store t0) in
  (∀ email firstName lastName password r,
     let w1 := step (CallRegister email firstName lastName password) w in
     let w2 := step (HttpSettles (nextRequest w) r) w1 in
     inflight w !! nextRequest w = None
     ∧ trace w1 =
       trace w ++
       [HttpPost (nextRequest w) unauthenticated "/register"
          [("email", email); ("first_name", firstName);
           ("last_name", lastName); ("password", password)]]
     ∧ state w2 = state w
     ∧ refreshTimerId w2 = refreshTimerId w
     ∧ localStorage w2 = localStorage w
     ∧ timers w2 = timers w
     ∧ inflight w2 = inflight w
     ∧ trace w2 =
       trace w1 ++
       [Settled OpRegister
          match r with Ok _ => Resolved | Err _ => Rejected end])
  ∧ (∀ id k r, inflight w !! id = Some (RegisterPost k) →
       let w' := step (HttpSettles id r) w in
       only_adds
         [Settled OpRegister
            match r with Ok _ => Resolved | Err _ => Rejected end]
         (set_inflight (delete id (inflight w)) w) w'
       ∧ ∀ meta, beforeEachGuard meta w' = beforeEachGuard meta w).
Proof.
  intros w.
  assert (inflight_ok w) as Hok by apply inflight_ok_run, inflight_ok_boot.
  assert (inflight w !! nextRequest w = None) as Hfresh.
  { destruct (inflight w !! nextRequest w) as [p|] eqn:Hid; [|done].
    apply Hok in Hid as [Hlt _]. lia. }
  split.
  - intros email firstName lastName password r w1 w2.
    split; [done|]. split; [done|].
    unfold w2, w1. cbn [step]. unfold register.
    cbn [httpPost inflight]. rewrite lookup_insert_eq.
    destruct r as [data|[]]; cbn [resume settle emit set_inflight
      state refreshTimerId localStorage timers inflight trace];
      rewrite delete_insert_eq, delete_id by done; by repeat split.
  - intros id k r Hid w'.
    destruct (Hok id _ Hid) as [_ Hk]. simpl in Hk. subst k.
    unfold w'. cbn [step]. rewrite Hid.
    by destruct r as [data|[]].
Qed.

(** *** A login that fails, a login that is dropped *)

(** X12. In every reachable world a login request that fails rejects the
    promise of [login()] and changes nothing else: the session (if one is
    already there), its stored copy, the timers and the other calls in
    flight stay as they were, and nothing is sent. *)
Theorem login_failure_changes_nothing (es : list Event)
    (store : gmap string StoredText) (t0 : Z) (id : nat) (k : Handler)
    (v : Rejection) :
  let w := run es (boot store t0) in
  inflight w !! id = Some (LoginPost k) →
  only_adds [Settled OpLogin Rejected]
    (set_inflight (delete id (inflight w)) w)
    (step (HttpSettles id (Err v)) w).
Proof.
  intros w Hid.
  assert (inflight_ok w) as Hok by apply inflight_ok_run, inflight_ok_boot.
  destruct (Hok id _ Hid) as [_ Hk]. simpl in Hk. subst k.
  cbn [step]. rewrite Hid. by repeat split.
Qed.

(** X14. A fulfilled [login()] does not mean logged in.  When the login
    response carries an access token that has already expired (refresh
    token unexpired), the promise of [login()] stays pending while the
    scheduler's refresh is in flight; if that refresh fails the session is
    dropped and the promise of [login()] is then resolved, not rejected. *)
Theorem login_resolves_after_dropped_session (es : list Event)
    (store : gmap string StoredText) (t0 : Z) (id : nat) (k : Handler)
    (data : Api.LoginResponse) (v : Rejection) :
  let w := run es (boot store t0) in
  let w1 := step (HttpSettles id (Ok data)) w in
  let w2 := step (HttpSettles (nextRequest w) (Err v)) w1 in
  inflight w !! id = Some (LoginPost k) →
  clock w < refreshTokenExpiration (stateOfResponse data) →
  accessTokenExpiration (stateOfResponse data) ≤ clock w →
  state w1 = Some (stateOfResponse data)
  ∧ trace w1 =
    trace w
    ++ match refreshTimerId w with
       | Some tid => [ClearTimeout tid]
       | None => []
       end
    ++ [HttpPost (nextRequest w) withRefreshToken "/auth/refresh" []]
  ∧ state w2 = None
  ∧ localStorage w2 !! localStorageKey = None
  ∧ trace w2 = trace w1 ++ [Console CouldNotRefresh; Settled OpLogin Resolved].
Proof.
  intros w w1 w2 Hid Hr Ha.
  assert (inflight_ok w) as Hok by apply inflight_ok_run, inflight_ok_boot.
  destruct (Hok id _ Hid) as [_ Hk]. simpl in Hk. subst k.
  set (s := stateOfResponse data) in *.
  set (w0 := writeStateToStorage s
               (set_state (Some s) (set_inflight (delete id (inflight w)) w))).
  assert (w1 = httpPost withRefreshToken "/auth/refresh" []
                 (RefreshPost (catchLogout (awaited OpLogin (caller OpLogin))))
                 (cancelRefreshTimer w0)) as Hw1.
  { unfold w1. cbn [step]. rewrite Hid. cbn [resume]. fold s. fold w0.
    by apply (scheduleAutoRefresh_stale _ w0 s). }
  assert (inflight w1 !! nextRequest w
          = Some (RefreshPost (catchLogout (awaited OpLogin (caller OpLogin)))))
    as Hid1.
  { rewrite Hw1. cbn [httpPost inflight].
    rewrite cancelRefreshTimer_nextRequest. apply lookup_insert_eq. }
  split; [|split].
  - rewrite Hw1. cbn [httpPost state]. by rewrite cancelRefreshTimer_state.
  - rewrite Hw1. cbn [httpPost trace].
    rewrite cancelRefreshTimer_trace, cancelRefreshTimer_nextRequest.
    by rewrite <- app_assoc.
  - unfold w2. cbn [step]. rewrite Hid1. cbn [resume settle].
    cbn [emit set_state removeStateFromStorage set_localStorage set_inflight
           state localStorage trace].
    rewrite lookup_delete_eq, <- app_assoc. by repeat split.
Qed.

(** *** Every way a refresh can fail *)

(** X13. In every reachable world a refresh request that fails is handled in
    exactly one of three ways, by who awaits it: the scheduler logs out
    (session absent, entry removed); the timeout's callback only writes to
    the console; a call by the application is rejected to its caller.  In
    the last two the session and the storage are unchanged, and in all
    three no request is sent again and no timer is armed or cleared. *)
Theorem refresh_failure_three_ways (es : list Event)
    (store : gmap string StoredText) (t0 : Z) (id : nat) (k : Handler)
    (v : Rejection) :
  let w := run es (boot store t0) in
  let w' := step (HttpSettles id (Err v)) w in
  inflight w !! id = Some (RefreshPost k) →
  (nextRequest w' = nextRequest w
   ∧ inflight w' = delete id (inflight w)
   ∧ timers w' = timers w
   ∧ refreshTimerId w' = refreshTimerId w)
  ∧ ((∃ k', k = catchLogout k'
            ∧ state w' = None
            ∧ localStorage w' !! localStorageKey = None)
     ∨ (k = catchConsoleError
        ∧ state w' = state w
        ∧ localStorage w' = localStorage w
        ∧ trace w' = trace w ++ [Console UncaughtRejection])
     ∨ (k = caller OpRefresh
        ∧ state w' = state w
        ∧ localStorage w' = localStorage w
        ∧ trace w' = trace w ++ [Settled OpRefresh Rejected])).
Proof.
  intros w w' Hid.
  assert (inflight_ok w) as Hok by apply inflight_ok_run, inflight_ok_boot.
  destruct (Hok id _ Hid) as [_ Hk]. simpl in Hk.
  unfold w'. cbn [step]. rewrite Hid. cbn [resume]. split.
  - by rewrite settle_nextRequest, settle_inflight, settle_timers,
      settle_refreshTimerId.
  - destruct Hk as [| |k' Hk'].
    + right. right. by repeat split.
    + right. left. by repeat split.
    + left. exists k'. split; [done|]. cbn [settle].
      rewrite settle_Resolved_state, settle_Resolved_localStorage. simpl.
      by rewrite lookup_delete_eq.
Qed.

(** *** The branch of the scheduler that is never taken *)

Lemma enabled_emit e w :
  e ≠ Console CannotEnableAutoRefresh →
  Console CannotEnableAutoRefresh ∉ trace w →
  Console CannotEnableAutoRefresh ∉ trace (emit e w).
Proof.
  intros He H. simpl. apply not_elem_of_app. split; [done|].
  intros Hin%list_elem_of_singleton. by apply He.
Qed.

Lemma enabled_settle o k w :
  Console CannotEnableAutoRefresh ∉ trace w →
  Console CannotEnableAutoRefresh ∉ trace (settle o k w).
Proof.
  revert o w; induction k; intros o w H; simpl.
  - by apply enabled_emit.
  - destruct o; [done|by apply enabled_emit].
  - destruct o; [by apply IHk|].
    apply IHk. by apply (enabled_emit (Console CouldNotRefresh)).
  - by apply IHk.
Qed.

Lemma enabled_cancelRefreshTimer w :
  Console CannotEnableAutoRefresh ∉ trace w →
  Console CannotEnableAutoRefresh ∉ trace (cancelRefreshTimer w).
Proof.
  intros H. rewrite cancelRefreshTimer_trace.
  apply not_elem_of_app. split; [done|].
  destruct (refreshTimerId w); [|apply not_elem_of_nil].
  by intros Hin%list_elem_of_singleton.
Qed.

Lemma enabled_refresh k w :
  Console CannotEnableAutoRefresh ∉ trace w →
  Console CannotEnableAutoRefresh ∉ trace (refresh k w).
Proof.
  intros H. unfold refresh. destruct (state w); [|by apply enabled_settle].
  simpl. apply not_elem_of_app. split; [done|].
  by intros Hin%list_elem_of_singleton.
Qed.

(** On a session the scheduler never takes the branch of line 101. *)
Lemma enabled_scheduleAutoRefresh k w s :
  state w = Some s →
  Console CannotEnableAutoRefresh ∉ trace w →
  Console CannotEnableAutoRefresh ∉ trace (scheduleAutoRefresh k w).
Proof.
  intros Hs H. unfold scheduleAutoRefresh.
  rewrite cancelRefreshTimer_state, Hs.
  destruct (refreshTokenExpiration s <=? clock (cancelRefreshTimer w)).
  { apply enabled_settle. by apply enabled_cancelRefreshTimer. }
  destruct (accessTokenExpiration s <=? clock (cancelRefreshTimer w)).
  { by apply enabled_refresh, enabled_cancelRefreshTimer. }
  apply enabled_settle. simpl.
  apply not_elem_of_app. split; [|by intros Hin%list_elem_of_singleton].
  apply not_elem_of_app. split; [|by intros Hin%list_elem_of_singleton].
  by apply enabled_cancelRefreshTimer.
Qed.

Lemma enabled_clearTokens k w :
  Console CannotEnableAutoRefresh ∉ trace w →
  Console CannotEnableAutoRefresh ∉ trace (clearTokens k w).
Proof.
  intros H. unfold clearTokens.
  apply enabled_settle, enabled_emit; [done|].
  by apply enabled_cancelRefreshTimer.
Qed.

Lemma enabled_step e w :
  Console CannotEnableAutoRefresh ∉ trace w →
  Console CannotEnableAutoRefresh ∉ trace (step e w).
Proof.
  intros H. destruct e; cbn [step].
  - unfold install. destruct (readStateFromStorage w) as [[st|]|err].
    + apply enabled_emit; [done|].
      by apply (enabled_scheduleAutoRefresh _ (set_state (Some st) w) st).
    + by apply enabled_emit.
    + by apply enabled_emit.
  - simpl. apply not_elem_of_app. split; [done|].
    by intros Hin%list_elem_of_singleton.
  - by apply enabled_refresh.
  - unfold logout. destruct (state w); [|by apply enabled_settle].
    simpl. apply not_elem_of_app. split; [done|].
    by intros Hin%list_elem_of_singleton.
  - by apply enabled_clearTokens.
  - destruct (inflight w !! id) as [[k|k|k|k]|]; [| | | |done];
      destruct r as [data|[]]; cbn [resume].
    + by eapply enabled_scheduleAutoRefresh.
    + by apply enabled_settle.
    + by apply enabled_settle.
    + by eapply enabled_scheduleAutoRefresh.
    + by apply enabled_settle.
    + by apply enabled_settle.
    + by apply enabled_clearTokens.
    + apply enabled_clearTokens. by apply enabled_emit.
    + by apply enabled_settle.
    + by apply enabled_settle.
    + by apply enabled_settle.
    + by apply enabled_settle.
  - destruct (timers w !! id) as [t|]; [|done].
    destruct (due t <=? clock w); [|done].
    unfold refreshTimerCallback. apply enabled_refresh. by apply enabled_emit.
  - done.
  - simpl. apply not_elem_of_app. split; [done|].
    by intros Hin%list_elem_of_singleton.
Qed.

(** X15. The scheduler is only ever run on a session: in no run from a
    fresh page is its "Cannot enable token auto refresh" branch (line 101)
    taken. *)
Theorem scheduler_always_has_session (es : list Event)
    (store : gmap string StoredText) (t0 : Z) :
  Console CannotEnableAutoRefresh ∉ trace (run es (boot store t0)).
Proof.
  assert (∀ w, Console CannotEnableAutoRefresh ∉ trace w →
               Console CannotEnableAutoRefresh ∉ trace (run es w)) as H.
  { induction es as [|e es IH]; intros w Hw; [done|].
    simpl. by apply IH, enabled_step. }
  apply H. simpl. apply not_elem_of_nil.
Qed.

(** ** Witnesses of the further properties *)

(** X1, witness: on [logged_in] the logout request is rejected with a value
    that cannot be serialized, and the promise of [logout()] is rejected. *)
Lemma which_promises_reject_witness :
  Settled OpLogout Rejected
    ∈ trace (run [CallLogin "ada@example.org" "pw";
                  HttpSettles 0 (Ok (response 300000 900000));
                  CallLogout; HttpSettles 1 (Err Unserializable)] (boot ∅ 0))
  ∧ (OpLogout = OpLogin ∨ OpLogout = OpRefresh ∨ OpLogout = OpRegister
     ∨ (OpLogout = OpLogout
        ∧ ∃ id, HttpSettles id (Err Unserializable)
                  ∈ [CallLogin "ada@example.org" "pw";
                     HttpSettles 0 (Ok (response 300000 900000));
                     CallLogout; HttpSettles 1 (Err Unserializable)])).
Proof.
  assert (Settled OpLogout Rejected
            ∈ trace (run [CallLogin "ada@example.org" "pw";
                          HttpSettles 0 (Ok (response 300000 900000));
                          CallLogout; HttpSettles 1 (Err Unserializable)]
                       (boot ∅ 0))) as Hin
    by (vm_compute; repeat constructor).
  split; [exact Hin|].
  exact (which_promises_reject _ _ _ _ Hin).
Defined.

(** X2, witness: a "theme" entry beside the session of [logged_in]. *)
Lemma other_storage_keys_untouched_witness :
  "theme" ≠ localStorageKey
  ∧ (localStorage
       (run [CallLogin "ada@example.org" "pw";
             HttpSettles 0 (Ok (response 300000 900000))]
          (boot {[ "theme" := NotJson "dark" ]} 0)) !! "theme")
    = (localStorage (boot {[ "theme" := NotJson "dark" ]} 0) !! "theme").
Proof.
  assert ("theme" ≠ localStorageKey) as Hne by discriminate.
  split; [exact Hne|].
  exact (other_storage_keys_untouched _ _ "theme" Hne).
Defined.

(** X3, witness: a refresh and a logout called on [logged_in]. *)
Lemma write_through_invariant_witness :
  in_sync logged_in
  ∧ (CallInstall ∉ [CallRefresh; CallLogout])
  ∧ in_sync (run [CallRefresh; CallLogout] logged_in).
Proof.
  assert (in_sync logged_in) as Hs by (vm_compute; reflexivity).
  assert (CallInstall ∉ [CallRefresh; CallLogout]) as Hn.
  { apply not_elem_of_cons. split; [discriminate|].
    apply not_elem_of_cons. split; [discriminate|]. apply not_elem_of_nil. }
  split; [exact Hs|]. split; [exact Hn|].
  exact (write_through_invariant _ _ Hs Hn).
Defined.

(** X5, witness: [logged_in] reloaded at time 1000. *)
Lemma session_survives_reload_witness :
  in_sync logged_in
  ∧ state logged_in = Some (stateOfResponse (response 300000 900000))
  ∧ state (install (boot (localStorage logged_in) 1000))
    = Some (stateOfResponse (response 300000 900000)).
Proof.
  assert (in_sync logged_in) as Hs by (vm_compute; reflexivity).
  assert (state logged_in = Some (stateOfResponse (response 300000 900000)))
    as Hst by (vm_compute; reflexivity).
  split; [exact Hs|]. split; [exact Hst|].
  destruct (session_survives_reload logged_in 1000 Hs) as (H & _).
  apply (H _ Hst). vm_compute. reflexivity.
Defined.

(** X6, witness: the login of [logged_in]. *)
Lemma refresh_due_before_expiry_witness :
  logs_in login_sent (HttpSettles 0 (Ok (response 300000 900000)))
    (stateOfResponse (response 300000 900000))
  ∧ ∃ t, timers logged_in = {[ nextTimer login_sent := t ]}
         ∧ delay t = 300000 - 60000 - clock login_sent
         ∧ (delay t ≤ 2147483647 →
            due t = Z.max (clock login_sent) (300000 - 60000)
            ∧ clock login_sent ≤ due t < 300000)
         ∧ (2147483648 ≤ delay t < 4294967296 → due t = clock login_sent).
Proof.
  assert (logs_in login_sent (HttpSettles 0 (Ok (response 300000 900000)))
            (stateOfResponse (response 300000 900000))) as Hin
    by (apply (login_succeeds login_sent 0%nat (caller OpLogin));
        vm_compute; reflexivity).
  split; [exact Hin|].
  pose proof (refresh_due_before_expiry [CallLogin "ada@example.org" "pw"] ∅ 0
                (HttpSettles 0 (Ok (response 300000 900000)))
                (stateOfResponse (response 300000 900000))) as H.
  cbv zeta in H. apply (H Hin); vm_compute; reflexivity.
Defined.

(** X7, witness: the timeout of [refresh_due] runs and its request fails. *)
Lemma timer_refresh_failure_stops_refreshing_witness :
  timers refresh_due !! 0%nat = Some {| armedAt := 0; delay := 240000 |}
  ∧ state refresh_due = Some (stateOfResponse (response 300000 900000))
  ∧ state (step (HttpSettles 1 (Err Serializable)) (step (TimerFires 0) refresh_due))
    = Some (stateOfResponse (response 300000 900000))
  ∧ timers (step (HttpSettles 1 (Err Serializable)) (step (TimerFires 0) refresh_due)) = ∅.
Proof.
  assert (timers refresh_due !! 0%nat
          = Some {| armedAt := 0; delay := 240000 |}) as Hid
    by (vm_compute; reflexivity).
  assert (state refresh_due = Some (stateOfResponse (response 300000 900000)))
    as Hst by (vm_compute; reflexivity).
  split; [exact Hid|]. split; [exact Hst|].
  pose proof (timer_refresh_failure_stops_refreshing
                [CallLogin "ada@example.org" "pw";
                 HttpSettles 0 (Ok (response 300000 900000));
                 Elapse 240000] ∅ 0 0%nat
                {| armedAt := 0; delay := 240000 |}
                (stateOfResponse (response 300000 900000)) Serializable) as H.
  cbv zeta in H.
  destruct (H Hid) as (_ & _ & H1 & _ & H2 & _);
    [vm_compute; discriminate|exact Hst|].
  split; [exact H1|exact H2].
Defined.

(** X8, witness: on [logged_out_mid_refresh] the refresh response arrives
    after the logout. *)
Lemma refresh_response_after_logout_witness :
  state logged_out_mid_refresh = None
  ∧ inflight logged_out_mid_refresh !! 1%nat
    = Some (RefreshPost (caller OpRefresh))
  ∧ state (step (HttpSettles 1 (Ok (response 300000 900000)))
             logged_out_mid_refresh)
    = Some (stateOfResponse (response 300000 900000)).
Proof.
  assert (inflight logged_out_mid_refresh !! 1%nat
          = Some (RefreshPost (caller OpRefresh))) as Hid
    by (vm_compute; reflexivity).
  split; [vm_compute; reflexivity|]. split; [exact Hid|].
  destruct (refresh_response_after_logout logged_out_mid_refresh 1%nat _
              (response 300000 900000) Hid) as (H & _);
    [vm_compute; reflexivity|exact H].
Defined.

(** X10, witness: the identity after the login of [logged_in]. *)
Lemma accessors_follow_transitions_witness :
  logs_in login_sent (HttpSettles 0 (Ok (response 300000 900000)))
    (stateOfResponse (response 300000 900000))
  ∧ getAccessToken logged_in = Some "at"
  ∧ getUserInfo logged_in =
    Some {| UserInfo.email := "ada@example.org";
            UserInfo.firstName := "Ada";
            UserInfo.lastName := "Lovelace";
            UserInfo.name := "Ada Lovelace" |}.
Proof.
  assert (logs_in login_sent (HttpSettles 0 (Ok (response 300000 900000)))
            (stateOfResponse (response 300000 900000))) as Hin
    by (apply (login_succeeds login_sent 0%nat (caller OpLogin));
        vm_compute; reflexivity).
  split; [exact Hin|].
  destruct (accessors_follow_transitions login_sent) as (H & _).
  destruct (H _ _ Hin) as (H1 & _ & H3); [vm_compute; reflexivity|].
  split; [exact H1|exact H3].
Defined.

(** X11, witness: a registration on a fresh page whose request fails. *)
Lemma register_never_logs_in_witness :
  inflight (step (CallRegister "ada@example.org" "Ada" "Lovelace" "pw")
              fresh_page) !! 0%nat
    = Some (RegisterPost (caller OpRegister))
  ∧ state (step (HttpSettles 0 (Err Serializable))
             (step (CallRegister "ada@example.org" "Ada" "Lovelace" "pw")
                fresh_page))
    = None
  ∧ trace (step (HttpSettles 0 (Err Serializable))
             (step (CallRegister "ada@example.org" "Ada" "Lovelace" "pw")
                fresh_page))
    = trace (step (CallRegister "ada@example.org" "Ada" "Lovelace" "pw")
               fresh_page)
      ++ [Settled OpRegister Rejected].
Proof.
  assert (inflight (step (CallRegister "ada@example.org" "Ada" "Lovelace" "pw")
                      fresh_page) !! 0%nat
          = Some (RegisterPost (caller OpRegister))) as Hid
    by (vm_compute; reflexivity).
  split; [exact Hid|].
  pose proof (register_never_logs_in
                [CallRegister "ada@example.org" "Ada" "Lovelace" "pw"] ∅ 0)
    as H.
  cbv zeta in H. destruct H as (_ & H).
  destruct (H 0%nat _ (Err Serializable) Hid)
    as ((H1 & _ & _ & _ & _ & _ & _ & _ & H9) & _).
  split; [exact H1|exact H9].
Defined.

(** X12, witness: the login request of [login_sent] fails. *)
Lemma login_failure_changes_nothing_witness :
  inflight login_sent !! 0%nat = Some (LoginPost (caller OpLogin))
  ∧ state (step (HttpSettles 0 (Err Serializable)) login_sent) = None
  ∧ trace (step (HttpSettles 0 (Err Serializable)) login_sent)
    = trace login_sent ++ [Settled OpLogin Rejected].
Proof.
  assert (inflight login_sent !! 0%nat = Some (LoginPost (caller OpLogin)))
    as Hid by (vm_compute; reflexivity).
  split; [exact Hid|].
  pose proof (login_failure_changes_nothing
                [CallLogin "ada@example.org" "pw"] ∅ 0 0%nat _ Serializable
                Hid) as H.
  destruct H as (H1 & _ & _ & _ & _ & _ & _ & _ & H9).
  split; [exact H1|exact H9].
Defined.

(** X13, witness: the scheduler's refresh on [stale_page] fails. *)
Lemma refresh_failure_three_ways_witness :
  inflight (step CallInstall stale_page) !! 0%nat
    = Some (RefreshPost (catchLogout catchConsoleError))
  ∧ nextRequest (step (HttpSettles 0 (Err Serializable)) (step CallInstall stale_page))
    = nextRequest (step CallInstall stale_page)
  ∧ timers (step (HttpSettles 0 (Err Serializable)) (step CallInstall stale_page))
    = timers (step CallInstall stale_page).
Proof.
  assert (inflight (step CallInstall stale_page) !! 0%nat
          = Some (RefreshPost (catchLogout catchConsoleError))) as Hid
    by (vm_compute; reflexivity).
  split; [exact Hid|].
  pose proof (refresh_failure_three_ways [CallInstall]
                {[ localStorageKey :=
                     JSON_stringify (stateOfResponse (response 0 10)) ]} 5
                0%nat _ Serializable Hid) as H.
  destruct H as ((H1 & _ & H3 & _) & _).
  split; [exact H1|exact H3].
Defined.

(** X14, witness: a login whose access token expired at time 0. *)
Lemma login_resolves_after_dropped_session_witness :
  inflight login_sent !! 0%nat = Some (LoginPost (caller OpLogin))
  ∧ state (step (HttpSettles 1 (Err Serializable))
             (step (HttpSettles 0 (Ok (response 0 900000))) login_sent))
    = None
  ∧ trace (step (HttpSettles 1 (Err Serializable))
             (step (HttpSettles 0 (Ok (response 0 900000))) login_sent))
    = trace (step (HttpSettles 0 (Ok (response 0 900000))) login_sent)
      ++ [Console CouldNotRefresh; Settled OpLogin Resolved].
Proof.
  assert (inflight login_sent !! 0%nat = Some (LoginPost (caller OpLogin)))
    as Hid by (vm_compute; reflexivity).
  split; [exact Hid|].
  pose proof (login_resolves_after_dropped_session
                [CallLogin "ada@example.org" "pw"] ∅ 0 0%nat _
                (response 0 900000) Serializable Hid) as H.
  cbv zeta in H.
  destruct H as (_ & _ & H3 & _ & H5);
    [vm_compute; reflexivity|vm_compute; discriminate|].
  split; [exact H3|exact H5].
Defined.
